(** * A shallow embedding of the celo envelope engine (Go package [celo]).

    Byte slices are [list byte]; a Go slice that may be [nil] is an
    [option (list byte)] where [None] is [nil].  An [io.Reader] over an
    in-memory source is the list of bytes still to be read, an [io.Writer]
    is a [sink] that accepts bytes up to an optional capacity, and the
    [crypto/rand] reader is the list of random bytes it can still deliver.
    AES-GCM and argon2 are the parameters of the section [Primitives]. *)

From Stdlib Require Import String Ascii.
From Stdlib Require Import List Arith Lia Bool NArith.
From Stdlib Require Import Init.Byte Strings.Byte.
Import ListNotations.

(** ** errors: the kinds of [errors.Kind] (errors/errors.go) *)

Module errors.

Inductive Kind :=
| Other | Invalid | PhraseIsEmpty | PhraseMismatch | PhraseOther
| Permissions | Create | Open | Exist | NotExist | IsDir | Pattern
| Signature | Metadata | NotReady | BlockSize | Nonce | NonceSize
| Salt | SaltSize | Ciphertext | Cipher | Plaintext | Encode | Decode
| Incompatible | Decrypt | Encrypt | Internal.

End errors.

(** Errors of the Go standard library wrapped by [errors.E]. *)
Inductive io_err := EOF | ErrUnexpectedEOF | ErrShortWrite.

(** A result carrying either a value or the [Kind] of an [*errors.Error]. *)
Inductive result (A : Type) : Type :=
| Ok : A -> result A
| Err : errors.Kind -> result A.
Arguments Ok {A} _.
Arguments Err {A} _.

(** ** Bytes and in-memory I/O *)

Fixpoint bytes_Equal (a b : list byte) : bool :=
  match a, b with
  | [], [] => true
  | x :: a', y :: b' => Byte.eqb x y && bytes_Equal a' b'
  | _, _ => false
  end.

Definition bytes_of (s : option (list byte)) : list byte :=
  match s with Some b => b | None => [] end.

(** [io.ReadFull(r, buf)] with [len(buf) = n]: the bytes placed in [buf],
    the count, the error, and what is left in the source. *)
Definition ReadFull (n : nat) (r : list byte)
  : list byte * nat * option io_err * list byte :=
  if n <=? length r then (firstn n r, n, None, skipn n r)
  else (r, length r,
        Some (if length r =? 0 then EOF else ErrUnexpectedEOF), []).

(** [io.ReadAll] / [ioutil.ReadAll] over an in-memory source never fails. *)
Definition ReadAll (r : list byte) : list byte * option io_err * list byte :=
  (r, None, []).

(** An [io.Writer] that accepts at most [s_room] more bytes ([None]: no
    limit); a write that does not fit is cut and fails, as [io.Writer]
    requires when [n < len(p)]. *)
Record sink := mkSink { s_data : list byte; s_room : option nat }.

Definition sink_Write (w : sink) (p : list byte) : nat * option io_err * sink :=
  match s_room w with
  | None => (length p, None, mkSink (s_data w ++ p) None)
  | Some r =>
      if length p <=? r then (length p, None, mkSink (s_data w ++ p) (Some (r - length p)))
      else (r, Some ErrShortWrite, mkSink (s_data w ++ firstn r p) (Some 0))
  end.

(** ** Constants (celo.go) *)

Definition Aes256BlockSize : nat := 32.
Definition SaltSize : nat := 32.
Definition NonceSize : nat := 12.
Definition Extension : String.string := "celo"%string.
Definition Version : nat := 1.
Definition MinVersion : nat := 1.
Definition MaxVersion : nat := 1.

(** ** Metadata (metadata.go) *)

Definition SignatureSize : nat := 32.

Definition signatureHeader : list byte :=
  [x0a; x1a; x43; x45; x4c; x4f; x0a; x1a].

Definition versionIndex := 0.
Definition saltSizeIndex := 1.
Definition blockSizeIndex := 2.
Definition nonceSizeIndex := 3.

(** [signature : [8]byte], [vsbn : [4]byte], [reserved : [20]byte]. *)
Record Metadata_t := mkMetadata {
  signature : list byte;
  vsbn : list byte;
  reserved : list byte }.

Definition vsbn_at (v : list byte) (i : nat) : nat := Byte.to_nat (nth i v x00).

(** [Metadata.Bytes]: the signature, the four [vsbn] bytes, then the zeroes
    left by [make] (the reserved bytes are not copied). *)
Definition Metadata_Bytes (m : Metadata_t) : list byte :=
  firstn 8 (signature m) ++
  [nth versionIndex (vsbn m) x00; nth saltSizeIndex (vsbn m) x00;
   nth blockSizeIndex (vsbn m) x00; nth nonceSizeIndex (vsbn m) x00] ++
  repeat x00 20.

(** [ValidateMetadata]: [None] is a nil error. *)
Definition ValidateMetadata (sig vsbn reserved : list byte) : option errors.Kind :=
  if negb (bytes_Equal sig signatureHeader) then Some errors.Signature
  else if (vsbn_at vsbn versionIndex <? MinVersion)
          || (MaxVersion <? vsbn_at vsbn versionIndex) then Some errors.Incompatible
  else if negb (vsbn_at vsbn blockSizeIndex =? 16)
          && negb (vsbn_at vsbn blockSizeIndex =? 32) then Some errors.NonceSize
  else if 32 <? vsbn_at vsbn nonceSizeIndex then Some errors.NonceSize
  else None.

(** [DecodeMetadata(r)]: metadata, the named result [n], the error and the
    rest of the source.  The counts of the three reads are bound in the
    [if] statements; the outer [vn] and [rn] added to [n] stay 0. *)
Definition DecodeMetadata (r : list byte)
  : option Metadata_t * nat * option errors.Kind * list byte :=
  let n := 0 in
  let vn := 0 in
  let rn := 0 in
  match ReadFull 8 r with
  | (_, n', Some _, r1) => (None, n', Some errors.Metadata, r1)
  | (sig, _, None, r1) =>
    match ReadFull 4 r1 with
    | (_, vn', Some _, r2) => (None, n + vn', Some errors.Metadata, r2)
    | (v, _, None, r2) =>
      let n := n + vn in
      match ReadFull 20 r2 with
      | (_, rn', Some _, r3) => (None, n + rn', Some errors.Metadata, r3)
      | (res, _, None, r3) =>
        let n := n + rn in
        match ValidateMetadata sig v res with
        | Some k => (None, n, Some k, r3)
        | None => (Some (mkMetadata sig v res), n, None, r3)
        end
      end
    end
  end.

(** [newCurrentMetadata]. *)
Definition newCurrentMetadata : Metadata_t :=
  mkMetadata signatureHeader
    (* byte(Version), byte(SaltSize), byte(Aes256BlockSize), byte(NonceSize) *)
    [x01; x20; x20; x0c]
    (repeat x00 20).

(** ** The cipher value and the shared session state (cipher.go, celo.go) *)

(** [Cipher]: the block size and the AEAD, which is AES-GCM under [c_key]. *)
Record Cipher_t := mkCipher { c_blockSize : nat; c_key : list byte }.

(** [gcmStandardNonceSize]: [cipher.NewGCM] always builds a 12-byte nonce
    AEAD, whatever [nonceSize] the caller configured. *)
Definition gcmStandardNonceSize : nat := 12.

Definition Cipher_NonceSize (c : Cipher_t) : nat := gcmStandardNonceSize.

(** The [celo] struct embedded in [Encrypter] and [Decrypter]. *)
Record celo := mkCelo {
  metadata : option Metadata_t;
  blockSize : nat;
  saltSize : nat;
  nonceSize : nat;
  salt : option (list byte);
  nonce : option (list byte);
  ciphertext : option (list byte);
  cipher : option Cipher_t;
  ext : string;
  preserveKey : bool;
  initialized : bool }.

Definition set_metadata (c : celo) (m : option Metadata_t) : celo :=
  mkCelo m (blockSize c) (saltSize c) (nonceSize c) (salt c) (nonce c)
    (ciphertext c) (cipher c) (ext c) (preserveKey c) (initialized c).
Definition set_salt (c : celo) (s : option (list byte)) : celo :=
  mkCelo (metadata c) (blockSize c) (saltSize c) (nonceSize c) s (nonce c)
    (ciphertext c) (cipher c) (ext c) (preserveKey c) (initialized c).
Definition set_nonce (c : celo) (s : option (list byte)) : celo :=
  mkCelo (metadata c) (blockSize c) (saltSize c) (nonceSize c) (salt c) s
    (ciphertext c) (cipher c) (ext c) (preserveKey c) (initialized c).
Definition set_ciphertext (c : celo) (s : option (list byte)) : celo :=
  mkCelo (metadata c) (blockSize c) (saltSize c) (nonceSize c) (salt c) (nonce c)
    s (cipher c) (ext c) (preserveKey c) (initialized c).
Definition set_cipher (c : celo) (x : option Cipher_t) : celo :=
  mkCelo (metadata c) (blockSize c) (saltSize c) (nonceSize c) (salt c) (nonce c)
    (ciphertext c) x (ext c) (preserveKey c) (initialized c).
Definition set_initialized (c : celo) (b : bool) : celo :=
  mkCelo (metadata c) (blockSize c) (saltSize c) (nonceSize c) (salt c) (nonce c)
    (ciphertext c) (cipher c) (ext c) (preserveKey c) b.

(** [SetExtension] *)
Definition SetExtension (e : string) (c : celo) : celo :=
  mkCelo (metadata c) (blockSize c) (saltSize c) (nonceSize c) (salt c) (nonce c)
    (ciphertext c) (cipher c) e (preserveKey c) (initialized c).

Definition IsReady (c : celo) : bool := initialized c.

(** [celo.Wipe] *)
Definition Wipe (c : celo) : celo :=
  let c := set_nonce c None in
  let c := set_ciphertext c None in
  let c := set_salt c None in
  let c := set_cipher c None in
  set_initialized c false.

(** [NewEncrypter] *)
Definition NewEncrypter : celo :=
  mkCelo (Some newCurrentMetadata) Aes256BlockSize SaltSize NonceSize
    None None None None Extension false false.

(** [NewDecrypter]: the metadata pointer is nil until [Read]. *)
Definition NewDecrypter : celo :=
  mkCelo None Aes256BlockSize SaltSize NonceSize
    None None None None Extension false false.

(** ** File names (celo.go) *)

(** [strings.HasPrefix(s, prefix)] *)
Definition HasPrefix (s pre : string) : bool := String.prefix pre s.

(** [strip_suffix suf s = Some r] when [s = r ++ suf]. *)
Fixpoint strip_suffix (suf s : string) : option string :=
  if String.eqb s suf then Some EmptyString
  else match s with
       | EmptyString => None
       | String a s' => option_map (String a) (strip_suffix suf s')
       end.

(** [strings.HasSuffix(s, suffix)] *)
Definition HasSuffix (s suf : string) : bool :=
  match strip_suffix suf s with Some _ => true | None => false end.

(** [strings.TrimSuffix(s, suffix)] *)
Definition TrimSuffix (s suf : string) : string :=
  match strip_suffix suf s with Some r => r | None => s end.

(** [GetEncryptedFileName], the file being known by its name [f.Name()]. *)
Definition GetEncryptedFileName (c : celo) (name : string) : string :=
  if String.eqb (ext c) EmptyString then name
  else
    let e := ext c in
    let e := if negb (HasPrefix e ".") then String.append "." e else e in
    String.append name e.

(** [GetDecryptedFileName] *)
Definition GetDecryptedFileName (c : celo) (name : string) : string :=
  if String.eqb (ext c) EmptyString then name
  else
    let e := ext c in
    let e := if negb (HasPrefix e ".") then String.append "." e else e in
    if HasSuffix name e && negb (String.eqb name e) then TrimSuffix name e
    else name.

(** ** Encrypter.Write (encrypter.go)

    The four writes bind their counts in [if] statements, so the outer [sn],
    [nn] and [cn] that are added to [n] keep their zero value.  [None] is a
    run-time panic (nil metadata pointer). *)
Definition Write (e : celo) (w : sink) : option (nat * option errors.Kind * sink) :=
  if negb (IsReady e) then Some (0, Some errors.NotReady, w) else
  match metadata e with
  | None => None
  | Some m =>
    let n := 0 in
    let sn := 0 in
    let nn := 0 in
    let cn := 0 in
    match sink_Write w (Metadata_Bytes m) with
    | (sn', Some _, w1) => Some (sn', Some errors.Encode, w1)
    | (_, None, w1) =>
      match sink_Write w1 (bytes_of (salt e)) with
      | (n', Some _, w2) => Some (n' + sn, Some errors.Encode, w2)
      | (_, None, w2) =>
        let n := n + sn in
        match sink_Write w2 (bytes_of (nonce e)) with
        | (nn', Some _, w3) => Some (n + nn', Some errors.Encode, w3)
        | (_, None, w3) =>
          let n := n + nn in
          match sink_Write w3 (bytes_of (ciphertext e)) with
          | (cn', Some _, w4) => Some (n + cn', Some errors.Encode, w4)
          | (_, None, w4) => Some (n + cn, None, w4)
          end
        end
      end
    end
  end.

(** ** Cryptographic operations over AES-GCM and argon2 *)

Section Primitives.

(** [aead.Seal(nil, nonce, plaintext, additionalData)] of AES-GCM under a key. *)
Variable gcm_Seal : list byte -> list byte -> list byte -> list byte -> list byte.
(** [aead.Open(nil, nonce, ciphertext, additionalData)]: [None] is the
    authentication error. *)
Variable gcm_Open : list byte -> list byte -> list byte -> list byte -> option (list byte).
(** [argon2.IDKey(password, salt, time, memory, threads, keyLen)]. *)
Variable argon2_IDKey : list byte -> list byte -> N -> N -> N -> N -> list byte.

(** [aes.NewCipher] accepts 16, 24 and 32-byte keys. *)
Definition aes_key_ok (key : list byte) : bool :=
  (length key =? 16) || (length key =? 24) || (length key =? 32).

(** [NewCipher]; [cipher.NewGCM] does not fail on an AES block. *)
Definition NewCipher (bs ns : nat) (key : list byte) : result Cipher_t :=
  if aes_key_ok key then Ok (mkCipher bs key) else Err errors.Cipher.

(** [Cipher.Encrypt(plaintext, additionalData)] drawing the nonce from the
    random source [rnd]. *)
Definition Cipher_Encrypt (c : Cipher_t) (plaintext ad : list byte) (rnd : list byte)
  : result (list byte * list byte) * list byte :=
  match ReadFull (Cipher_NonceSize c) rnd with
  | (_, _, Some _, rnd') => (Err errors.Encrypt, rnd')
  | (nonce, _, None, rnd') => (Ok (nonce, gcm_Seal (c_key c) nonce plaintext ad), rnd')
  end.

(** [Cipher.Decrypt(nonce, ciphertext)] *)
Definition Cipher_Decrypt (c : Cipher_t) (nonce ciphertext : list byte) : result (list byte) :=
  match gcm_Open (c_key c) nonce ciphertext [] with
  | Some p => Ok p
  | None => Err errors.Decrypt
  end.

(** [NewSalt(saltSize)]: salt ([None] is nil), count, error, random source left. *)
Definition NewSalt (size : nat) (rnd : list byte)
  : option (list byte) * nat * option errors.Kind * list byte :=
  match ReadFull size rnd with
  | (_, n, Some _, rnd') => (None, n, Some errors.Salt, rnd')
  | (s, n, None, rnd') => (Some s, n, None, rnd')
  end.

(** [GenerateKey(phrase, salt, blockSize)] *)
Definition GenerateKey (phrase salt : list byte) (bs : nat) : list byte :=
  argon2_IDKey phrase salt 1 (64 * 1024) 4 (N.of_nat bs).

(** [Encrypter.Init]: the new state, the random source left and the error. *)
Definition Init (e : celo) (phrase : list byte) (rnd : list byte)
  : celo * list byte * option errors.Kind :=
  if initialized e && preserveKey e then (e, rnd, None) else
  let e := set_initialized e true in
  match NewSalt (saltSize e) rnd with
  | (s, _, Some k, rnd') => (set_salt e s, rnd', Some k)
  | (s, _, None, rnd') =>
    let e := set_salt e s in
    match NewCipher (blockSize e) (nonceSize e)
            (GenerateKey phrase (bytes_of (salt e)) (blockSize e)) with
    | Err k => (e, rnd', Some k)
    | Ok c => (set_cipher e (Some c), rnd', None)
    end
  end.

(** [Encrypter.Encrypt]; [None] is a run-time panic (nil cipher). *)
Definition Encrypt (e : celo) (phrase plaintext : list byte) (rnd : list byte)
  : option (celo * list byte * result (list byte)) :=
  match Init e phrase rnd with
  | (e1, r1, Some k) => Some (e1, r1, Err k)
  | (e1, r1, None) =>
    match cipher e1 with
    | None => None
    | Some c =>
      match Cipher_Encrypt c plaintext [] r1 with
      | (Err k, r2) => Some (set_ciphertext e1 None, r2, Err k)
      | (Ok (nn, ct), r2) =>
        Some (set_nonce (set_ciphertext e1 (Some ct)) (Some nn), r2, Ok ct)
      end
    end
  end.

(** [Decrypter.initCipher] *)
Definition initCipher (d : celo) (phrase : list byte) : celo * option errors.Kind :=
  match NewCipher (blockSize d) (nonceSize d)
          (GenerateKey phrase (bytes_of (salt d)) (blockSize d)) with
  | Err k => (d, Some k)
  | Ok c => (set_cipher d (Some c), None)
  end.

(** [Decrypter.Decrypt]; [None] is a run-time panic (nil cipher). *)
Definition Decrypter_Decrypt (d : celo) (phrase : list byte)
  : option (celo * result (list byte)) :=
  if negb (IsReady d) then Some (d, Err errors.NotReady) else
  let '(d1, err) :=
    match cipher d with
    | None => initCipher d phrase
    | Some _ => (d, None)
    end in
  match err with
  | Some k => Some (d1, Err k)
  | None =>
    match cipher d1 with
    | None => None
    | Some c =>
      match Cipher_Decrypt c (bytes_of (nonce d1)) (bytes_of (ciphertext d1)) with
      | Err k => Some (d1, Err k)
      | Ok p => Some (d1, Ok p)
      end
    end
  end.

End Primitives.

(** ** Decrypter.Read (decrypter.go)

    [DecodeMetadata] assigns the named results [n] and [err]; the salt and
    nonce counts are bound in [if] statements, so the outer [sn] and [nn]
    added to [n] stay 0.  On a short nonce read [d.nonce] keeps the buffer
    made by [make], filled as far as the source went. *)
Definition Read (d : celo) (r : list byte) : celo * nat * option errors.Kind * list byte :=
  let sn := 0 in
  let nn := 0 in
  match DecodeMetadata r with
  | (None, n, err, r1) => (d, n, err, r1)
  | (Some m, n, _, r1) =>
    let d := set_metadata d (Some m) in
    match ReadFull (saltSize d) r1 with
    | (_, sn', Some _, r2) => (d, n + sn', Some errors.Salt, r2)
    | (s, _, None, r2) =>
      let n := n + sn in
      let d := match salt d with
               | Some old =>
                   if bytes_Equal s old then d
                   else set_cipher (set_salt d (Some s)) None
               | None => set_cipher (set_salt d (Some s)) None
               end in
      match ReadFull (nonceSize d) r2 with
      | (part, nn', Some _, r3) =>
        (set_nonce d (Some (part ++ repeat x00 (nonceSize d - length part))),
         n + nn', Some errors.Nonce, r3)
      | (nb, _, None, r3) =>
        let d := set_nonce d (Some nb) in
        let n := n + nn in
        let '(ct, err, r4) := ReadAll r3 in
        let d := set_ciphertext d (Some ct) in
        let n := n + length ct in
        match err with
        | Some _ => (d, n, Some errors.Ciphertext, r4)
        | None => (set_initialized d true, n, None, r4)
        end
      end
    end
  end.

(** ** A concrete instance of the primitives, used by the witnesses *)

Module Toy.

(** The tag is the key itself, appended to the plaintext. *)
Definition seal (key nonce plaintext ad : list byte) : list byte := plaintext ++ key.

Definition open (key nonce c ad : list byte) : option (list byte) :=
  if (length key <=? length c)
     && bytes_Equal (skipn (length c - length key) c) key
  then Some (firstn (length c - length key) c) else None.

Definition idkey (phrase salt : list byte) (time memory threads keyLen : N) : list byte :=
  firstn (N.to_nat keyLen) (phrase ++ salt ++ repeat x00 (N.to_nat keyLen)).

End Toy.

(** ** Concrete sessions and runs *)

Definition ready_encrypter : celo :=
  mkCelo (Some newCurrentMetadata) Aes256BlockSize SaltSize NonceSize
    (Some (repeat x07 32)) (Some (repeat x09 12)) (Some [x50; x51; x52])
    (Some (mkCipher 32 (repeat x00 32))) Extension false true.

(** An Encrypter with the preserve-key flag on. *)
Definition preserving_encrypter : celo :=
  mkCelo (Some newCurrentMetadata) Aes256BlockSize SaltSize NonceSize
    None None None None Extension true false.

Definition preserved_state : celo :=
  fst (fst (Init Toy.idkey preserving_encrypter [x41] (repeat x07 32))).

(** A default Encrypter after a successful [Init] and no [Encrypt]. *)
Definition init_only_state : celo :=
  fst (fst (Init Toy.idkey NewEncrypter [x41] (repeat x07 32))).

Definition toy_K : list byte := [x41; x42].
Definition toy_P : list byte := [x50; x51; x52].

(** The envelope of [toy_P] under [toy_K], as [EncryptFile] writes it. *)
Definition toy_envelope : list byte :=
  match Encrypt Toy.seal Toy.idkey NewEncrypter toy_K toy_P (repeat x07 44) with
  | Some (e1, _, _) =>
      match Write e1 (mkSink [] None) with
      | Some (_, _, w) => s_data w
      | None => []
      end
  | None => []
  end.

Definition dec (d : celo) (p : list byte) : celo * option (result (list byte)) :=
  match Decrypter_Decrypt Toy.open Toy.idkey d p with
  | Some (d', r) => (d', Some r)
  | None => (d, None)
  end.

Definition rd (d : celo) (r : list byte) : celo := fst (fst (fst (Read d r))).

(** A Decrypter reads the envelope, is tried with the wrong phrase [x00],
    then with the right one, reads the same envelope again and is tried
    with the right phrase, and finally is wiped, reads it and is tried with
    the right phrase: the four results. *)
Definition wrong_phrase_scenario : list (option (result (list byte))) :=
  let d1 := rd NewDecrypter toy_envelope in
  let '(d2, r1) := dec d1 [x00] in
  let '(d3, r2) := dec d2 toy_K in
  let d4 := rd d3 toy_envelope in
  let '(_, r3) := dec d4 toy_K in
  let d5 := rd (Wipe d4) toy_envelope in
  let '(_, r4) := dec d5 toy_K in
  [r1; r2; r3; r4].

(** ** More of metadata.go *)

(** [SignatureHeader()]: a copy of the 8 magic bytes. *)
Definition SignatureHeader : list byte := firstn 8 signatureHeader.

(** [Metadata.Size] *)
Definition Metadata_Size (m : Metadata_t) : nat := SignatureSize.

(** [Metadata.Verify(b)] *)
Definition Metadata_Verify (m : Metadata_t) (b : list byte) : bool :=
  bytes_Equal (Metadata_Bytes m) b.

(** [newMetadata(version, blockSize, saltSize, nonceSize)]: note that the
    [vsbn] array is laid out version, saltSize, blockSize, nonceSize. *)
Definition newMetadata (version blockSize saltSize nonceSize : byte) : result Metadata_t :=
  let v := [version; saltSize; blockSize; nonceSize] in
  let reserved := repeat x00 20 in
  match ValidateMetadata signatureHeader v reserved with
  | Some k => Err k
  | None => Ok (mkMetadata signatureHeader v (repeat x00 20))
  end.

(** [Decrypter.Init(secretPhrase, salt, nonce, ciphertext)] (decrypter.go):
    the sizes are checked first; salt and nonce are stored before the
    cipher is built, the ciphertext and the ready flag only after. *)
Definition Decrypter_Init
    (argon2_IDKey : list byte -> list byte -> N -> N -> N -> N -> list byte)
    (d : celo) (phrase : list byte) (salt nonce ct : option (list byte))
  : celo * option errors.Kind :=
  if negb (length (bytes_of salt) =? saltSize d) then (d, Some errors.SaltSize)
  else if negb (length (bytes_of nonce) =? nonceSize d) then (d, Some errors.NonceSize)
  else
    let d := set_nonce (set_salt d salt) nonce in
    (* [d.salt] is now [salt] *)
    match NewCipher (blockSize d) (nonceSize d)
            (GenerateKey argon2_IDKey phrase (bytes_of salt) (blockSize d)) with
    | Err k => (d, Some k)
    | Ok c => (set_initialized (set_ciphertext (set_cipher d (Some c)) ct) true, None)
    end.

(** ** Options (celo.go) *)

(** An [option] is a [func] taking a [*celo] and returning an [error]; the only one, [SetExtension],
    never fails, and [Config] ignores the errors anyway. *)
Definition option_fn := celo -> celo.

(** [celo.Config(opts...)] applies the options in order. *)
Definition Config (opts : list option_fn) (c : celo) : celo :=
  fold_left (fun c opt => opt c) opts c.

(** ** The errors package (errors/errors.go) *)

Module errs.

(** An [error] value: a foreign error with its message, or an [*Error]
    with its [Entity], [Op], [Kind] and underlying [Err] ([None] is nil). *)
#[warnings="-register-all"]
Inductive error :=
| Plain (msg : string)
| CErr (entity op : string) (kind : errors.Kind) (err : option error).

(** The arguments [errors.E] accepts. *)
Inductive arg :=
| AEntity (s : string)
| AOp (s : string)
| AKind (k : errors.Kind)
| AErr (e : error).

Definition Kind_eq_dec (a b : errors.Kind) : {a = b} + {a <> b}.
Proof. decide equality. Defined.

Definition Kind_eqb (a b : errors.Kind) : bool := if Kind_eq_dec a b then true else false.

(** The fields set by the loop of [E]: the last argument of each type wins. *)
Definition E_fields (args : list arg) : string * string * errors.Kind * option error :=
  fold_left (fun acc a =>
    let '(ent, op, k, inner) := acc in
    match a with
    | AEntity s => (s, op, k, inner)
    | AOp s => (ent, s, k, inner)
    | AKind k' => (ent, op, k', inner)
    | AErr x => (ent, op, k, Some x)
    end) args (EmptyString, EmptyString, errors.Other, None).

(** [E(args...)]; [None] is the panic on an empty argument list.  When the
    underlying error is an [*Error] (copied), a repeated entity or kind is
    cleared in it, and an unset kind is pulled up from it. *)
Definition E (args : list arg) : option error :=
  match args with
  | [] => None
  | _ =>
    let '(ent, op, k, inner) := E_fields args in
    match inner with
    | Some (CErr pent pop pk pinner) =>
      let pent := if String.eqb pent ent then EmptyString else pent in
      let pk := if Kind_eqb pk k then errors.Other else pk in
      let '(k, pk) := if Kind_eqb k errors.Other then (pk, errors.Other) else (k, pk) in
      Some (CErr ent op k (Some (CErr pent pop pk pinner)))
    | _ => Some (CErr ent op k inner)
    end
  end.

Fixpoint Is_error (kind : errors.Kind) (e : error) : bool :=
  match e with
  | Plain _ => false
  | CErr _ _ k inner =>
    if negb (Kind_eqb k errors.Other) then Kind_eqb k kind
    else match inner with
         | Some x => Is_error kind x
         | None => false
         end
  end.

(** [Is(kind, err)]; [None] is a nil error. *)
Definition Is (kind : errors.Kind) (err : option error) : bool :=
  match err with
  | Some e => Is_error kind e
  | None => false
  end.

(** The underlying error [E] keeps: the last [error] argument. *)
Definition last_err (args : list arg) : option error :=
  fold_left (fun acc a => match a with AErr x => Some x | _ => acc end) args None.

Definition is_kind_arg (a : arg) : bool :=
  match a with AKind _ => true | _ => false end.

End errs.

(** ** Reading the phrase (phrase.go)

    Standard input is the list of the answers [terminal.ReadPassword] gives
    in turn; [None] is a read error, and an exhausted input fails too. *)
Definition stdin := list (option (list byte)).

(** [ReadPhrase]: the phrase or a read error, and the input left. *)
Definition ReadPhrase (inp : stdin) : option (list byte) * stdin :=
  match inp with
  | [] => (None, [])
  | x :: inp' => (x, inp')
  end.

(** The loop of [ReadAndConfirmPhrase], [i] being its counter; it runs at
    most [retries] times (once when [retries = 0]), so the fuel
    [S retries] given below is never exhausted. *)
Fixpoint confirm_loop (fuel retries i : nat) (inp : stdin) : result (list byte) * stdin :=
  match fuel with
  | O => (Err errors.PhraseMismatch, inp)
  | S fuel' =>
    if (retries =? 0) || (i <=? retries) then
      match ReadPhrase inp with
      | (None, inp1) => (Err errors.PhraseOther, inp1)
      | (Some first, inp1) =>
        if length first =? 0 then
          if i <? retries then confirm_loop fuel' retries (S i) inp1
          else (Err errors.PhraseIsEmpty, inp1)
        else
          match ReadPhrase inp1 with
          | (None, inp2) => (Err errors.PhraseOther, inp2)
          | (Some second, inp2) =>
            if bytes_Equal first second then (Ok first, inp2)
            else (Err errors.PhraseMismatch, inp2)
          end
      end
    else (Err errors.PhraseMismatch, inp)
  end.

(** [ReadAndConfirmPhrase(retries)] *)
Definition ReadAndConfirmPhrase (retries : nat) (inp : stdin) : result (list byte) * stdin :=
  confirm_loop (S retries) retries 1 inp.

(** ** The file system seen by file.Create, EncryptFile and DecryptFile

    What a path names: a regular file with its content, a directory, or a
    path on which [os.Stat] and [os.Open] fail with a permission error
    ([Denied]) or with another error ([Faulty]).  [fs_room] is the number of
    bytes the device still accepts ([None]: no limit); a write that does not
    fit is cut and fails, as with a full disk.  [fs_nocreate] lists the
    paths at which [os.Create] fails (a read-only file, a directory that
    cannot be written to). *)
Inductive node := File (data : list byte) | Dir | Denied | Faulty.

Record fsys := mkFS {
  fs_files : list (string * node);
  fs_room : option nat;
  fs_nocreate : list string }.

Fixpoint fs_lookup (l : list (string * node)) (name : string) : option node :=
  match l with
  | [] => None
  | (k, v) :: l' => if String.eqb k name then Some v else fs_lookup l' name
  end.

Definition fs_get (fs : fsys) (name : string) : option node := fs_lookup (fs_files fs) name.

Definition fs_drop (name : string) (l : list (string * node)) : list (string * node) :=
  filter (fun kv => negb (String.eqb (fst kv) name)) l.

(** The file [name] now holds what was written through the sink [w]. *)
Definition fs_commit (fs : fsys) (name : string) (w : sink) : fsys :=
  mkFS ((name, File (s_data w)) :: fs_drop name (fs_files fs)) (s_room w) (fs_nocreate fs).

(** [os.Stat] *)
Inductive stat_result := StatNotExist | StatPermission | StatOther | StatFile | StatDir.

Definition os_Stat (fs : fsys) (name : string) : stat_result :=
  match fs_get fs name with
  | None => StatNotExist
  | Some Denied => StatPermission
  | Some Faulty => StatOther
  | Some (File _) => StatFile
  | Some Dir => StatDir
  end.

(** [os.Open] then [io.ReadAll]: the error of [os.Open], the content, or
    the error of reading a directory. *)
Inductive open_result := OpenErr | OpenFile (data : list byte) | OpenDir.

Definition os_Open (fs : fsys) (name : string) : open_result :=
  match fs_get fs name with
  | Some (File d) => OpenFile d
  | Some Dir => OpenDir
  | _ => OpenErr
  end.

(** [os.Remove]; the callers only remove regular files and ignore its
    error. *)
Definition os_Remove (fs : fsys) (name : string) : fsys :=
  match fs_get fs name with
  | Some (File _) => mkFS (fs_drop name (fs_files fs)) (fs_room fs) (fs_nocreate fs)
  | _ => fs
  end.

(** [os.Create] fails at [name]. *)
Definition os_Create_fails (fs : fsys) (name : string) : bool :=
  existsb (String.eqb name) (fs_nocreate fs).

(** [file.Create(name, overwrite)]: the [exist] result, the error and the
    file system, where the file is created (or truncated) empty, or the
    [Create] error of [os.Create].  [exist]
    is computed as written, [err != nil && !os.IsNotExist(err)]: it is true
    only when [os.Stat] failed for another reason than a missing file
    ([exist'] stands for the Go variable [exist]). *)
Definition file_Create (name : string) (overwrite : bool) (fs : fsys)
  : bool * option errors.Kind * fsys :=
  let st := os_Stat fs name in
  let stat_err := match st with StatNotExist | StatPermission | StatOther => true | _ => false end in
  let not_exist := match st with StatNotExist => true | _ => false end in
  let exist' := stat_err && negb not_exist in
  let create :=
    if os_Create_fails fs name then (exist', Some errors.Create, fs)
    else (exist', None, fs_commit fs name (mkSink [] (fs_room fs))) in
  match st with
  | StatNotExist => create
  | StatPermission => (exist', Some errors.Permissions, fs)
  | StatOther => (exist', Some errors.Permissions, fs)
  | StatDir => (exist', Some errors.IsDir, fs)
  | StatFile =>
    if negb overwrite then (exist', Some errors.Exist, fs) else create
  end.

Section Files.

Variable gcm_Seal : list byte -> list byte -> list byte -> list byte -> list byte.
Variable gcm_Open : list byte -> list byte -> list byte -> list byte -> option (list byte).
Variable argon2_IDKey : list byte -> list byte -> N -> N -> N -> N -> list byte.

(** [Encrypter.EncryptFile(secretPhrase, name, overwrite, removeSource)]:
    the Encrypter, the file system, the random source left and the
    encrypted file name or the error; [None] is a run-time panic.  The
    envelope is written into the created file, the bytes it accepts being
    kept when a write fails. *)
Definition EncryptFile (e : celo) (phrase : list byte) (name : string)
    (overwrite removeSource : bool) (fs : fsys) (rnd : list byte)
  : option (celo * fsys * list byte * result string) :=
  match os_Open fs name with
  | OpenErr => Some (e, fs, rnd, Err errors.Open)
  | OpenDir => Some (e, fs, rnd, Err errors.Plaintext)
  | OpenFile plaintext =>
    match Encrypt gcm_Seal argon2_IDKey e phrase plaintext rnd with
    | None => None
    | Some (e1, r1, Err k) => Some (e1, fs, r1, Err k)
    | Some (e1, r1, Ok _) =>
      let encryptedName := GetEncryptedFileName e1 name in
      match file_Create encryptedName overwrite fs with
      | (_, Some k, fs1) => Some (e1, fs1, r1, Err k)
      | (exist', None, fs1) =>
        match Write e1 (mkSink [] (fs_room fs1)) with
        | None => None
        | Some (_, Some k, w) =>
          let fs2 := fs_commit fs1 encryptedName w in
          Some (e1, if negb exist' then os_Remove fs2 encryptedName else fs2, r1, Err k)
        | Some (_, None, w) =>
          let fs2 := fs_commit fs1 encryptedName w in
          Some (e1, if removeSource then os_Remove fs2 name else fs2, r1, Ok encryptedName)
        end
      end
    end
  end.

(** [Decrypter.DecryptFile(secretPhrase, name, overwrite, removeSource)];
    reading a directory fails in the first read of [DecodeMetadata]. *)
Definition DecryptFile (d : celo) (phrase : list byte) (name : string)
    (overwrite removeSource : bool) (fs : fsys)
  : option (celo * fsys * result string) :=
  match os_Open fs name with
  | OpenErr => Some (d, fs, Err errors.Open)
  | OpenDir => Some (d, fs, Err errors.Metadata)
  | OpenFile data =>
    match Read d data with
    | (d1, _, Some k, _) => Some (d1, fs, Err k)
    | (d1, _, None, _) =>
      match Decrypter_Decrypt gcm_Open argon2_IDKey d1 phrase with
      | None => None
      | Some (d2, Err k) => Some (d2, fs, Err k)
      | Some (d2, Ok plaintext) =>
        let decryptedFileName := GetDecryptedFileName d2 name in
        match file_Create decryptedFileName overwrite fs with
        | (_, Some k, fs1) => Some (d2, fs1, Err k)
        | (exist', None, fs1) =>
          match sink_Write (mkSink [] (fs_room fs1)) plaintext with
          | (_, Some _, w) =>
            let fs2 := fs_commit fs1 decryptedFileName w in
            Some (d2, if negb exist' then os_Remove fs2 decryptedFileName else fs2,
                  Err errors.Create)
          | (_, None, w) =>
            let fs2 := fs_commit fs1 decryptedFileName w in
            Some (d2, if removeSource then os_Remove fs2 name else fs2, Ok decryptedFileName)
          end
        end
      end
    end
  end.

(** The loop of [EncryptMultipleFiles]: the names encrypted and, for each
    failure, the entity and the kind of the error wrapped by
    [errors.E(errors.Encrypt, op, errors.Entity(name), err)]. *)
Fixpoint EncryptMultipleFiles_loop (e : celo) (phrase : list byte) (names : list string)
    (overwrite removeSource : bool) (fs : fsys) (rnd : list byte)
    (done : list string) (errs : list (string * errors.Kind))
  : option (celo * fsys * list byte * list string * list (string * errors.Kind)) :=
  match names with
  | [] => Some (e, fs, rnd, done, errs)
  | nm :: names' =>
    match EncryptFile e phrase nm overwrite removeSource fs rnd with
    | None => None
    | Some (e1, fs1, r1, Err k) =>
      EncryptMultipleFiles_loop e1 phrase names' overwrite removeSource fs1 r1 done (errs ++ [(nm, k)])
    | Some (e1, fs1, r1, Ok en) =>
      EncryptMultipleFiles_loop e1 phrase names' overwrite removeSource fs1 r1 (done ++ [en]) errs
    end
  end.

(** [Encrypter.EncryptMultipleFiles] *)
Definition EncryptMultipleFiles (e : celo) (phrase : list byte) (names : list string)
    (overwrite removeSource : bool) (fs : fsys) (rnd : list byte) :=
  EncryptMultipleFiles_loop e phrase names overwrite removeSource fs rnd [] [].

(** The loop of [DecryptMultipleFiles], the errors being wrapped by
    [errors.E(errors.Decrypt, op, errors.Entity(name), err)]. *)
Fixpoint DecryptMultipleFiles_loop (d : celo) (phrase : list byte) (names : list string)
    (overwrite removeSource : bool) (fs : fsys)
    (done : list string) (errs : list (string * errors.Kind))
  : option (celo * fsys * list string * list (string * errors.Kind)) :=
  match names with
  | [] => Some (d, fs, done, errs)
  | nm :: names' =>
    match DecryptFile d phrase nm overwrite removeSource fs with
    | None => None
    | Some (d1, fs1, Err k) =>
      DecryptMultipleFiles_loop d1 phrase names' overwrite removeSource fs1 done (errs ++ [(nm, k)])
    | Some (d1, fs1, Ok dn) =>
      DecryptMultipleFiles_loop d1 phrase names' overwrite removeSource fs1 (done ++ [dn]) errs
    end
  end.

(** [Decrypter.DecryptMultipleFiles] *)
Definition DecryptMultipleFiles (d : celo) (phrase : list byte) (names : list string)
    (overwrite removeSource : bool) (fs : fsys) :=
  DecryptMultipleFiles_loop d phrase names overwrite removeSource fs [] [].

End Files.

(** * Properties *)

(** ** Helper lemmas *)

Lemma ReadFull_app (n : nat) (a b : list byte) :
  length a = n -> ReadFull n (a ++ b) = (a, n, None, b).
Proof.
  intros Ha. unfold ReadFull.
  rewrite length_app, <- Ha.
  replace (length a <=? length a + length b) with true
    by (symmetry; apply Nat.leb_le; lia).
  rewrite firstn_app, Nat.sub_diag, firstn_O, app_nil_r, firstn_all.
  rewrite skipn_app, Nat.sub_diag, skipn_O, skipn_all. reflexivity.
Qed.

Lemma ReadFull_ok (n : nat) (r : list byte) :
  n <= length r ->
  ReadFull n r = (firstn n r, n, None, skipn n r) /\ length (firstn n r) = n.
Proof.
  intros Hn. unfold ReadFull.
  replace (n <=? length r) with true by (symmetry; apply Nat.leb_le; lia).
  split; [reflexivity | rewrite length_firstn; lia].
Qed.

Lemma Metadata_Bytes_current_length : length (Metadata_Bytes newCurrentMetadata) = 32.
Proof. reflexivity. Qed.

(** The current metadata decodes back from its bytes, leaving the rest. *)
Lemma DecodeMetadata_current (rest : list byte) :
  DecodeMetadata (Metadata_Bytes newCurrentMetadata ++ rest)
  = (Some newCurrentMetadata, 0, None, rest).
Proof. reflexivity. Qed.

(** A ready Encrypter writing into an unlimited sink. *)
Lemma Write_unlimited (e : celo) (w : sink) (m : Metadata_t) :
  IsReady e = true -> metadata e = Some m -> s_room w = None ->
  Write e w = Some (0, None,
    mkSink (s_data w ++ Metadata_Bytes m ++ bytes_of (salt e)
              ++ bytes_of (nonce e) ++ bytes_of (ciphertext e)) None).
Proof.
  intros Hr Hm Hw. unfold Write. rewrite Hr, Hm. simpl.
  unfold sink_Write. rewrite Hw. simpl. rewrite !app_assoc. reflexivity.
Qed.

Lemma str_length_append (a b : string) :
  String.length (String.append a b) = String.length a + String.length b.
Proof. induction a as [|x a IH]; simpl; [reflexivity | now rewrite IH]. Qed.

Lemma strip_suffix_unfold (suf s : string) :
  strip_suffix suf s =
  if String.eqb s suf then Some EmptyString
  else match s with
       | EmptyString => None
       | String a s' => option_map (String a) (strip_suffix suf s')
       end.
Proof. destruct s; reflexivity. Qed.

Lemma strip_suffix_append (suf b : string) :
  strip_suffix suf (String.append b suf) = Some b.
Proof.
  induction b as [|x b IH]; cbn [String.append]; rewrite strip_suffix_unfold.
  - now rewrite String.eqb_refl.
  - destruct (String.eqb_spec (String x (String.append b suf)) suf) as [Heq|_].
    + exfalso. apply (f_equal String.length) in Heq. simpl in Heq.
      rewrite str_length_append in Heq. lia.
    + now rewrite IH.
Qed.

Lemma strip_suffix_some (suf s r : string) :
  strip_suffix suf s = Some r -> s = String.append r suf.
Proof.
  revert r. induction s as [|x s IH]; intros r; rewrite strip_suffix_unfold.
  - destruct (String.eqb_spec EmptyString suf) as [<-|_]; [|discriminate].
    intros H; inversion H; reflexivity.
  - destruct (String.eqb_spec (String x s) suf) as [<-|_].
    + intros H; inversion H; reflexivity.
    + destruct (strip_suffix suf s) as [r'|] eqn:E; simpl; [|discriminate].
      intros H; inversion H; subst; simpl. now rewrite (IH r').
Qed.

(** ** Envelope writing and metadata *)

(** C2 (code_bug): on a ready Encrypter and a sink that accepts everything,
    [Write] writes the 32 metadata bytes, the salt, the nonce and the
    ciphertext in that order, but the count it returns is 0: the counts of
    the writes are bound in the [if] statements and never reach [n]. *)
Theorem Write_order_count_zero (e : celo) (w : sink) (m : Metadata_t) :
  IsReady e = true -> metadata e = Some m -> s_room w = None ->
  Write e w = Some (0, None,
    mkSink (s_data w ++ Metadata_Bytes m ++ bytes_of (salt e)
              ++ bytes_of (nonce e) ++ bytes_of (ciphertext e)) None).
Proof. exact (Write_unlimited e w m). Qed.

Lemma Write_order_count_zero_witness :
  IsReady ready_encrypter = true /\
  Write ready_encrypter (mkSink [] None)
  = Some (0, None, mkSink (Metadata_Bytes newCurrentMetadata ++ repeat x07 32
                            ++ repeat x09 12 ++ [x50; x51; x52]) None).
Proof.
  split; [reflexivity|].
  apply (Write_order_count_zero ready_encrypter (mkSink [] None) newCurrentMetadata);
    reflexivity.
Defined.

(** C3 (code_bug): [DecodeMetadata] consumes exactly the 32 header bytes of
    a valid envelope, but reports 0 bytes read. *)
Theorem DecodeMetadata_reports_zero (rest : list byte) :
  length (Metadata_Bytes newCurrentMetadata) = 32 /\
  DecodeMetadata (Metadata_Bytes newCurrentMetadata ++ rest)
  = (Some newCurrentMetadata, 0, None, rest).
Proof. split; [reflexivity | apply DecodeMetadata_current]. Qed.

(** C4 (code_bug): a valid signature and version with block-size byte 24 is
    refused with a [NonceSize] error; [ValidateMetadata] never returns the
    [BlockSize] kind. *)
Theorem ValidateMetadata_block_size_kind :
  ValidateMetadata signatureHeader [x01; x20; x18; x0c] (repeat x00 20)
    = Some errors.NonceSize /\
  (forall sig v res, ValidateMetadata sig v res <> Some errors.BlockSize).
Proof.
  split; [reflexivity|].
  intros sig v res. unfold ValidateMetadata.
  destruct (negb _); [discriminate|].
  destruct (_ || _); [discriminate|].
  destruct (_ && _); [discriminate|].
  destruct (32 <? _); discriminate.
Qed.

(** C5 (code_bug): the [NotReady] guard of [Write] looks at the initialized
    flag only, although its comment says an initialized instance has a
    salt, a cipher and a nonce: a ready Encrypter with a nil nonce and a nil
    ciphertext is written without error, as the metadata and the salt
    alone. *)
Theorem Write_ready_nil_nonce (e : celo) (m : Metadata_t) :
  IsReady e = true -> metadata e = Some m -> nonce e = None -> ciphertext e = None ->
  Write e (mkSink [] None)
  = Some (0, None, mkSink (Metadata_Bytes m ++ bytes_of (salt e)) None).
Proof.
  intros Hr Hm Hn Hc. rewrite (Write_unlimited e (mkSink [] None) m Hr Hm eq_refl), Hn, Hc.
  cbn [s_data bytes_of app]. rewrite app_nil_r. reflexivity.
Qed.

Lemma Write_ready_nil_nonce_witness :
  snd (Init Toy.idkey NewEncrypter [x41] (repeat x07 32)) = None /\
  IsReady init_only_state = true /\ metadata init_only_state = Some newCurrentMetadata /\
  nonce init_only_state = None /\ ciphertext init_only_state = None /\
  Write init_only_state (mkSink [] None)
  = Some (0, None, mkSink (Metadata_Bytes newCurrentMetadata ++ bytes_of (salt init_only_state)) None).
Proof.
  assert (H0 : snd (Init Toy.idkey NewEncrypter [x41] (repeat x07 32)) = None)
    by (vm_compute; reflexivity).
  assert (Hr : IsReady init_only_state = true) by (vm_compute; reflexivity).
  assert (Hm : metadata init_only_state = Some newCurrentMetadata) by (vm_compute; reflexivity).
  assert (Hn : nonce init_only_state = None) by (vm_compute; reflexivity).
  assert (Hc : ciphertext init_only_state = None) by (vm_compute; reflexivity).
  split; [exact H0|]. split; [exact Hr|]. split; [exact Hm|]. split; [exact Hn|].
  split; [exact Hc|].
  exact (Write_ready_nil_nonce init_only_state newCurrentMetadata Hr Hm Hn Hc).
Defined.

(** C8: [Wipe] clears nonce, ciphertext, salt and cipher and the
    initialized flag, and keeps the sizes and the extension. *)
Theorem Wipe_spec (c : celo) :
  nonce (Wipe c) = None /\ ciphertext (Wipe c) = None /\ salt (Wipe c) = None /\
  cipher (Wipe c) = None /\ initialized (Wipe c) = false /\
  saltSize (Wipe c) = saltSize c /\ blockSize (Wipe c) = blockSize c /\
  nonceSize (Wipe c) = nonceSize c /\ ext (Wipe c) = ext c.
Proof. destruct c; repeat split. Qed.

(** ** File names *)

(** C9: with a non-empty extension, the encrypted name is the name followed
    by the extension with a leading dot; the decrypted name drops that
    dotted suffix exactly from names [b ++ suffix] with [b] non-empty, and
    keeps every other name; the examples of the spec with "celo". *)
Theorem file_names (c : celo) (name : string) :
  ext c <> EmptyString ->
  let e := if HasPrefix (ext c) "." then ext c else String.append "." (ext c) in
  (forall base, GetEncryptedFileName c base = String.append base e) /\
  (forall b, b <> EmptyString -> GetDecryptedFileName c (String.append b e) = b) /\
  ((forall b, b <> EmptyString -> name <> String.append b e) ->
   GetDecryptedFileName c name = name) /\
  GetEncryptedFileName (SetExtension "celo"%string c) "book_draft.md"%string = "book_draft.md.celo"%string /\
  GetDecryptedFileName (SetExtension "celo"%string c) "book_draft.md.celo"%string = "book_draft.md"%string /\
  GetDecryptedFileName (SetExtension "celo"%string c) "celo"%string = "celo"%string.
Proof.
  intros Hne e.
  assert (Hx : String.eqb (ext c) EmptyString = false) by now apply String.eqb_neq.
  assert (He : (if negb (HasPrefix (ext c) ".") then String.append "." (ext c)
                else ext c) = e)
    by (unfold e; now destruct (HasPrefix (ext c) ".")).
  unfold GetEncryptedFileName, GetDecryptedFileName. cbv zeta. rewrite Hx, He.
  split; [reflexivity|]. split; [|split; [|vm_compute; repeat split]].
  - intros b Hb. unfold HasSuffix, TrimSuffix. rewrite strip_suffix_append.
    destruct (String.eqb_spec (String.append b e) e) as [Heq|_]; [|reflexivity].
    exfalso. apply (f_equal String.length) in Heq. rewrite str_length_append in Heq.
    destruct b; [contradiction | simpl in Heq; lia].
  - intros Hn. unfold HasSuffix, TrimSuffix.
    destruct (strip_suffix e name) as [r|] eqn:Hs; [|reflexivity].
    apply strip_suffix_some in Hs.
    destruct r as [|a r].
    + simpl in Hs. subst name. now rewrite String.eqb_refl.
    + exfalso. apply (Hn (String a r)); [discriminate | exact Hs].
Qed.

Lemma file_names_witness :
  Extension <> EmptyString /\
  GetEncryptedFileName NewEncrypter "book_draft.md"%string = "book_draft.md.celo"%string.
Proof.
  split; [discriminate|].
  destruct (file_names NewEncrypter "x"%string ltac:(discriminate)) as [H _].
  rewrite H. reflexivity.
Defined.

(** ** Encrypter.Init *)

(** C6 (code_bug): when the random source cannot fill the salt, [Init]
    fails with a [Salt] error and a nil salt, but the Encrypter is already
    marked initialized: [IsReady] is true afterwards. *)
Theorem Init_salt_failure_ready
    (argon2_IDKey : list byte -> list byte -> N -> N -> N -> N -> list byte)
    (e : celo) (phrase rnd : list byte) :
  initialized e && preserveKey e = false -> length rnd < saltSize e ->
  let '(e', _, err) := Init argon2_IDKey e phrase rnd in
  err = Some errors.Salt /\ salt e' = None /\ IsReady e' = true.
Proof.
  intros Hp Hl. unfold Init. rewrite Hp. unfold NewSalt, ReadFull. simpl.
  replace (saltSize e <=? length rnd) with false
    by (symmetry; apply Nat.leb_gt; exact Hl).
  repeat split.
Qed.

Lemma Init_salt_failure_ready_witness :
  initialized NewEncrypter && preserveKey NewEncrypter = false /\
  length (@nil byte) < saltSize NewEncrypter /\
  (let '(e', _, err) := Init Toy.idkey NewEncrypter [x41] [] in
   err = Some errors.Salt /\ salt e' = None /\ IsReady e' = true).
Proof.
  split; [reflexivity|]. split; [vm_compute; lia|].
  apply Init_salt_failure_ready; [reflexivity | vm_compute; lia].
Defined.

(** C7: with [preserveKey] set, once [Init] has succeeded, a further [Init]
    (with any phrase) returns no error and leaves the state, hence the salt
    and the cached cipher, and the random source unchanged. *)
Theorem Init_preserveKey_idempotent
    (argon2_IDKey : list byte -> list byte -> N -> N -> N -> N -> list byte)
    (e e1 : celo) (phrase phrase' rnd rnd1 : list byte) :
  preserveKey e = true ->
  Init argon2_IDKey e phrase rnd = (e1, rnd1, None) ->
  Init argon2_IDKey e1 phrase' rnd1 = (e1, rnd1, None) /\
  salt (fst (fst (Init argon2_IDKey e1 phrase' rnd1))) = salt e1 /\
  cipher (fst (fst (Init argon2_IDKey e1 phrase' rnd1))) = cipher e1.
Proof.
  intros Hp HI.
  assert (H1 : initialized e1 = true /\ preserveKey e1 = true).
  { revert HI. unfold Init. rewrite Hp, andb_true_r.
    destruct (initialized e) eqn:Ei.
    - intros H; inversion H; subst. now split.
    - destruct (NewSalt _ _) as [[[s ?] [k|]] r'].
      + intros H; inversion H.
      + destruct (NewCipher _ _ _) as [c|k]; intros H; inversion H; subst.
        simpl. now split. }
  destruct H1 as [Hi Hp1].
  assert (H2 : Init argon2_IDKey e1 phrase' rnd1 = (e1, rnd1, None))
    by (unfold Init; now rewrite Hi, Hp1).
  rewrite H2. now repeat split.
Qed.

Lemma Init_preserveKey_idempotent_witness :
  preserveKey preserving_encrypter = true /\
  Init Toy.idkey preserving_encrypter [x41] (repeat x07 32)
    = (preserved_state, [], None) /\
  Init Toy.idkey preserved_state [x42] [] = (preserved_state, [], None).
Proof.
  split; [reflexivity|].
  assert (H : Init Toy.idkey preserving_encrypter [x41] (repeat x07 32)
              = (preserved_state, [], None))
    by (vm_compute; reflexivity).
  split; [exact H|].
  exact (proj1 (Init_preserveKey_idempotent Toy.idkey preserving_encrypter
                  preserved_state [x41] [x42] (repeat x07 32) [] eq_refl H)).
Defined.
(** ** Round trip *)

Lemma bytes_Equal_refl (a : list byte) : bytes_Equal a a = true.
Proof. induction a as [|x a IH]; simpl; [reflexivity | now rewrite (@Byte.byte_dec_lb x x eq_refl), IH]. Qed.

Lemma Toy_open_seal (k n p : list byte) : Toy.open k n (Toy.seal k n p []) [] = Some p.
Proof.
  unfold Toy.open, Toy.seal. rewrite length_app.
  replace (length p + length k - length k) with (length p) by lia.
  replace (length k <=? length p + length k) with true by (symmetry; apply Nat.leb_le; lia).
  rewrite skipn_app, skipn_all, Nat.sub_diag, skipn_O, bytes_Equal_refl. simpl.
  rewrite firstn_app, firstn_all, Nat.sub_diag, firstn_O, app_nil_r. reflexivity.
Qed.

(** C1: when a default Encrypter encrypts [P] under [K], writing the
    envelope into a sink and reading it back with a default Decrypter
    succeeds, and decrypting with [K] returns exactly [P].  AES-GCM enters
    only through its correctness: opening what was sealed under the same
    key and nonce gives the plaintext back. *)
Theorem roundtrip
    (gcm_Seal : list byte -> list byte -> list byte -> list byte -> list byte)
    (gcm_Open : list byte -> list byte -> list byte -> list byte -> option (list byte))
    (argon2_IDKey : list byte -> list byte -> N -> N -> N -> N -> list byte)
    (gcm_Open_Seal : forall k n p, gcm_Open k n (gcm_Seal k n p []) [] = Some p)
    (K P rnd rnd1 ct : list byte) (e1 : celo) :
  Encrypt gcm_Seal argon2_IDKey NewEncrypter K P rnd = Some (e1, rnd1, Ok ct) ->
  exists n w, Write e1 (mkSink [] None) = Some (n, None, w) /\
  exists d n', Read NewDecrypter (s_data w) = (d, n', None, []) /\
    option_map snd (Decrypter_Decrypt gcm_Open argon2_IDKey d K) = Some (Ok P).
Proof.
  intros H. unfold Encrypt in H.
  destruct (Init argon2_IDKey NewEncrypter K rnd) as [[e0 r0] [k|]] eqn:HI; [discriminate|].
  destruct (cipher e0) as [c|] eqn:Hc; [|discriminate].
  destruct (Cipher_Encrypt gcm_Seal c P [] r0) as [[[nn ct']|k] r2] eqn:HE; [|discriminate].
  inversion H; subst; clear H.
  unfold Init in HI. cbn [initialized preserveKey NewEncrypter andb] in HI.
  change (saltSize (set_initialized NewEncrypter true)) with SaltSize in HI.
  unfold NewSalt in HI.
  destruct (le_lt_dec SaltSize (length rnd)) as [Hl|Hl].
  2:{ unfold ReadFull in HI.
      replace (SaltSize <=? length rnd) with false in HI
        by (symmetry; apply Nat.leb_gt; lia).
      cbv beta iota zeta in HI. injection HI. intros. discriminate. }
  destruct (ReadFull_ok SaltSize rnd Hl) as [HR Hsl].
  rewrite HR in HI.
  remember (firstn SaltSize rnd) as sl eqn:Esl.
  remember (skipn SaltSize rnd) as r1 eqn:Er1.
  cbv beta iota zeta in HI.
  change (GenerateKey argon2_IDKey K
            (bytes_of (salt (set_salt (set_initialized NewEncrypter true) (Some sl))))
            (blockSize (set_salt (set_initialized NewEncrypter true) (Some sl))))
    with (GenerateKey argon2_IDKey K sl 32) in HI.
  remember (GenerateKey argon2_IDKey K sl 32) as key eqn:Ekey.
  unfold NewCipher in HI.
  destruct (aes_key_ok key) eqn:Hk; [|inversion HI].
  inversion HI; subst e0 r0; clear HI.
  cbn in Hc. inversion Hc; subst c; clear Hc.
  unfold Cipher_Encrypt, Cipher_NonceSize, gcmStandardNonceSize in HE. cbn [c_key] in HE.
  destruct (le_lt_dec 12 (length r1)) as [Hn|Hn].
  2:{ unfold ReadFull in HE.
      replace (12 <=? length r1) with false in HE
        by (symmetry; apply Nat.leb_gt; lia).
      cbv beta iota zeta in HE. congruence. }
  destruct (ReadFull_ok 12 r1 Hn) as [HR2 Hnl].
  rewrite HR2 in HE.
  remember (firstn 12 r1) as nc eqn:Enc.
  cbv beta iota zeta in HE.
  inversion HE; subst nn ct rnd1; clear HE.
  rewrite (Write_unlimited _ _ newCurrentMetadata) by reflexivity.
  eexists; eexists; split; [reflexivity|].
  cbn [s_data bytes_of salt nonce ciphertext set_nonce set_ciphertext set_cipher
       set_salt set_initialized NewEncrypter app].
  unfold Read. rewrite DecodeMetadata_current.
  cbn -[ReadFull Metadata_Bytes DecodeMetadata].
  rewrite (ReadFull_app _ sl _ Hsl).
  cbn -[ReadFull Metadata_Bytes DecodeMetadata].
  rewrite (ReadFull_app _ nc _ Hnl).
  cbn -[ReadFull Metadata_Bytes DecodeMetadata].
  eexists; eexists; split; [reflexivity|].
  unfold Decrypter_Decrypt, initCipher.
  cbn -[GenerateKey NewCipher Cipher_Decrypt].
  change Aes256BlockSize with 32. rewrite <- Ekey. unfold NewCipher. rewrite Hk.
  cbn -[GenerateKey Cipher_Decrypt].
  unfold Cipher_Decrypt. cbn [c_key]. rewrite gcm_Open_Seal. reflexivity.
Qed.

Lemma roundtrip_witness :
  exists e1 rnd1 ct,
    Encrypt Toy.seal Toy.idkey NewEncrypter [x41; x42] [x50; x51; x52] (repeat x07 44)
      = Some (e1, rnd1, Ok ct) /\
    exists n w, Write e1 (mkSink [] None) = Some (n, None, w) /\
    exists d n', Read NewDecrypter (s_data w) = (d, n', None, []) /\
      option_map snd (Decrypter_Decrypt Toy.open Toy.idkey d [x41; x42])
      = Some (Ok [x50; x51; x52]).
Proof.
  do 3 eexists.
  assert (H : Encrypt Toy.seal Toy.idkey NewEncrypter [x41; x42] [x50; x51; x52]
                (repeat x07 44) = Some (_, _, Ok _)) by reflexivity.
  split; [exact H|].
  exact (roundtrip Toy.seal Toy.open Toy.idkey Toy_open_seal _ _ _ _ _ _ H).
Defined.

(** ** The cached cipher of the Decrypter *)

Lemma bytes_Equal_true (a b : list byte) : bytes_Equal a b = true -> a = b.
Proof.
  revert b; induction a as [|x a IH]; intros [|y b]; simpl; try discriminate; auto.
  intros H. apply andb_prop in H as [Hx Hab].
  apply Byte.byte_dec_bl in Hx. subst. f_equal. now apply IH.
Qed.

(** [Read] leaves the cached cipher alone unless it stores a salt
    different from the one held. *)
Lemma Read_keeps_cipher (d d' : celo) (r rest : list byte) (n : nat) (err : option errors.Kind) :
  Read d r = (d', n, err, rest) -> salt d <> None -> salt d' = salt d ->
  cipher d' = cipher d.
Proof.
  intros H Hs Hss. revert H. unfold Read.
  destruct (DecodeMetadata r) as [[[[m|] n0] e0] r1].
  2:{ intros H; inversion H; subst; reflexivity. }
  destruct (ReadFull (saltSize (set_metadata d (Some m))) r1) as [[[s sn'] [x|]] r2].
  { intros H; inversion H; subst; reflexivity. }
  destruct (salt d) as [old|] eqn:Eold; [|congruence].
  cbn [salt set_metadata]. rewrite Eold.
  destruct (bytes_Equal s old) eqn:Eq.
  - destruct (ReadFull _ r2) as [[[nb nn'] [y|]] r3]; intros H; inversion H; subst;
      reflexivity.
  - destruct (ReadFull _ r2) as [[[nb nn'] [y|]] r3]; intros H; inversion H; subst;
      cbn in Hss; inversion Hss; subst; now rewrite bytes_Equal_refl in Eq.
Qed.

(** C10: once a cipher is cached, [Decrypt] gives the same result whatever
    the phrase; a [Decrypt] without a cached cipher caches the one derived
    from its phrase, whether or not decryption then succeeds; [Read] keeps
    the cached cipher unless it stores a different salt, and [Wipe] drops
    it.  On a concrete envelope, a wrong phrase makes the right phrase fail
    afterwards, also after reading the same envelope again, until [Wipe]. *)
Theorem Decrypt_cached_cipher_ignores_phrase
    (gcm_Open : list byte -> list byte -> list byte -> list byte -> option (list byte))
    (argon2_IDKey : list byte -> list byte -> N -> N -> N -> N -> list byte) :
  (forall d p1 p2, cipher d <> None ->
     Decrypter_Decrypt gcm_Open argon2_IDKey d p1
     = Decrypter_Decrypt gcm_Open argon2_IDKey d p2) /\
  (forall d pw, IsReady d = true -> cipher d = None ->
     aes_key_ok (GenerateKey argon2_IDKey pw (bytes_of (salt d)) (blockSize d)) = true ->
     exists d' res, Decrypter_Decrypt gcm_Open argon2_IDKey d pw = Some (d', res) /\
       cipher d' = Some (mkCipher (blockSize d)
                           (GenerateKey argon2_IDKey pw (bytes_of (salt d)) (blockSize d)))) /\
  (forall d d' r rest n err, Read d r = (d', n, err, rest) ->
     salt d <> None -> salt d' = salt d -> cipher d' = cipher d) /\
  (forall d, cipher (Wipe d) = None) /\
  wrong_phrase_scenario
  = [Some (Err errors.Decrypt); Some (Err errors.Decrypt);
     Some (Err errors.Decrypt); Some (Ok toy_P)].
Proof.
  split; [|split; [|split; [|split]]].
  - intros d p1 p2 Hc. unfold Decrypter_Decrypt.
    destruct (IsReady d); [|reflexivity].
    destruct (cipher d); [reflexivity | congruence].
  - intros d pw Hr Hc Hk. unfold Decrypter_Decrypt, initCipher, NewCipher.
    rewrite Hr, Hc, Hk. cbn [negb set_cipher cipher].
    destruct (Cipher_Decrypt gcm_Open _ _ _); eexists; eexists; split; reflexivity.
  - intros d d' r rest n err. apply Read_keeps_cipher.
  - intros d. destruct d; reflexivity.
  - vm_compute. reflexivity.
Qed.

(** * Further properties of the code *)

(** ** Metadata *)

Lemma vsbn_at_4 (v s b n : byte) :
  vsbn_at [v; s; b; n] versionIndex = Byte.to_nat v /\
  vsbn_at [v; s; b; n] blockSizeIndex = Byte.to_nat b /\
  vsbn_at [v; s; b; n] nonceSizeIndex = Byte.to_nat n.
Proof. repeat split. Qed.

(** [newMetadata] succeeds exactly for version 1, a block size of 16 or 32
    and a nonce size of at most 32 (any salt size), and then encodes the
    magic bytes, version, salt size, block size and nonce size, followed by
    20 zero bytes. *)
Theorem newMetadata_spec (v b s n : byte) :
  (exists m, newMetadata v b s n = Ok m) <->
  (Byte.to_nat v = 1 /\ (Byte.to_nat b = 16 \/ Byte.to_nat b = 32) /\ Byte.to_nat n <= 32).
Proof.
  unfold newMetadata, ValidateMetadata.
  destruct (vsbn_at_4 v s b n) as (Hv & Hb & Hn). rewrite Hv, Hb, Hn.
  change (negb (bytes_Equal signatureHeader signatureHeader)) with false. cbv iota.
  unfold MinVersion, MaxVersion.
  destruct (Nat.ltb_spec (Byte.to_nat v) 1), (Nat.ltb_spec 1 (Byte.to_nat v)),
    (Nat.eqb_spec (Byte.to_nat b) 16), (Nat.eqb_spec (Byte.to_nat b) 32),
    (Nat.ltb_spec 32 (Byte.to_nat n)); cbn;
    (split; [intros [m Hm]; try discriminate; lia
            | intros Hc; try lia; eexists; reflexivity]).
Qed.

Lemma newMetadata_bytes (v b s n : byte) (m : Metadata_t) :
  newMetadata v b s n = Ok m ->
  m = mkMetadata signatureHeader [v; s; b; n] (repeat x00 20) /\
  Metadata_Bytes m = signatureHeader ++ [v; s; b; n] ++ repeat x00 20.
Proof.
  unfold newMetadata. destruct (ValidateMetadata _ _ _); [discriminate|].
  intros H; inversion H; subst. split; reflexivity.
Qed.

Lemma firstn_add_split (A : Type) (a b : nat) (l : list A) :
  firstn (a + b) l = firstn a l ++ firstn b (skipn a l).
Proof.
  revert l; induction a as [|a IH]; intros l; [reflexivity|].
  destruct l as [|x l]; simpl; [now rewrite firstn_nil | now rewrite IH].
Qed.

Lemma bytes_Equal_iff (a b : list byte) : bytes_Equal a b = true <-> a = b.
Proof. split; [apply bytes_Equal_true | intros <-; apply bytes_Equal_refl]. Qed.

(** [DecodeMetadata] on a source of at least 32 bytes: it consumes exactly
    32 bytes and its verdict is the one of [ValidateMetadata] on the 8
    signature bytes, the 4 [vsbn] bytes and the 20 reserved bytes. *)
Lemma DecodeMetadata_long_eq (r : list byte) :
  32 <= length r ->
  DecodeMetadata r =
  match ValidateMetadata (firstn 8 r) (firstn 4 (skipn 8 r)) (firstn 20 (skipn 12 r)) with
  | Some k => (None, 0, Some k, skipn 32 r)
  | None => (Some (mkMetadata (firstn 8 r) (firstn 4 (skipn 8 r)) (firstn 20 (skipn 12 r))),
             0, None, skipn 32 r)
  end.
Proof.
  intros Hl. unfold DecodeMetadata.
  rewrite (proj1 (ReadFull_ok 8 r ltac:(lia))). cbv beta iota zeta.
  rewrite (proj1 (ReadFull_ok 4 (skipn 8 r) ltac:(rewrite length_skipn; lia))).
  cbv beta iota zeta. rewrite skipn_skipn.
  rewrite (proj1 (ReadFull_ok 20 (skipn (4 + 8) r) ltac:(rewrite length_skipn; lia))).
  cbv beta iota zeta. rewrite skipn_skipn. reflexivity.
Qed.

Lemma DecodeMetadata_short_core (r : list byte) :
  length r < 32 ->
  exists n, DecodeMetadata r = (None, n, Some errors.Metadata, []).
Proof.
  intros Hl. unfold DecodeMetadata, ReadFull.
  destruct (Nat.leb_spec 8 (length r)) as [H8|H8]; [|eexists; reflexivity].
  cbv beta iota zeta. rewrite length_skipn.
  destruct (Nat.leb_spec 4 (length r - 8)) as [H4|H4]; [|eexists; reflexivity].
  cbv beta iota zeta. rewrite length_skipn, length_skipn.
  destruct (Nat.leb_spec 20 (length r - 8 - 4)) as [H20|H20]; [lia|].
  eexists; reflexivity.
Qed.

(** [DecodeMetadata] on a source of fewer than 32 bytes: no metadata, a
    [Metadata] error, and the source is drained. *)
Theorem DecodeMetadata_short (r : list byte) :
  length r < 32 ->
  exists n, DecodeMetadata r = (None, n, Some errors.Metadata, []).
Proof. exact (DecodeMetadata_short_core r). Qed.

Lemma DecodeMetadata_short_witness :
  length [x0a; x1a; x43] < 32 /\
  exists n, DecodeMetadata [x0a; x1a; x43] = (None, n, Some errors.Metadata, []).
Proof. split; [simpl; lia | apply DecodeMetadata_short; simpl; lia]. Defined.

Lemma newMetadata_DecodeMetadata_core (v b s n : byte) (m : Metadata_t) (rest : list byte) :
  newMetadata v b s n = Ok m ->
  DecodeMetadata (Metadata_Bytes m ++ rest) = (Some m, 0, None, rest) /\
  Metadata_Verify m (Metadata_Bytes m) = true.
Proof.
  intros H.
  assert (Hv : ValidateMetadata signatureHeader [v; s; b; n] (repeat x00 20) = None).
  { revert H. unfold newMetadata. destruct (ValidateMetadata _ _ _); [discriminate | auto]. }
  destruct (newMetadata_bytes v b s n m H) as [Hm Hb].
  split; [|apply bytes_Equal_refl].
  rewrite Hb, <- !app_assoc. unfold DecodeMetadata.
  rewrite (ReadFull_app 8 signatureHeader _ eq_refl). cbv beta iota zeta.
  rewrite (ReadFull_app 4 [v; s; b; n] _ eq_refl). cbv beta iota zeta.
  rewrite (ReadFull_app 20 (repeat x00 20) _ eq_refl). cbv beta iota zeta.
  rewrite Hv, Hm. reflexivity.
Qed.

(** A metadata built by [newMetadata] decodes back from its [Bytes]
    followed by anything: [DecodeMetadata] returns the same metadata, no
    error, and leaves exactly what followed; [Verify] accepts its bytes. *)
Theorem newMetadata_DecodeMetadata (v b s n : byte) (m : Metadata_t) (rest : list byte) :
  newMetadata v b s n = Ok m ->
  DecodeMetadata (Metadata_Bytes m ++ rest) = (Some m, 0, None, rest) /\
  Metadata_Verify m (Metadata_Bytes m) = true.
Proof. exact (newMetadata_DecodeMetadata_core v b s n m rest). Qed.

Lemma newMetadata_DecodeMetadata_witness :
  newMetadata x01 x20 x20 x0c = Ok newCurrentMetadata /\
  DecodeMetadata (Metadata_Bytes newCurrentMetadata ++ [x07])
    = (Some newCurrentMetadata, 0, None, [x07]) /\
  Metadata_Verify newCurrentMetadata (Metadata_Bytes newCurrentMetadata) = true.
Proof.
  assert (H : newMetadata x01 x20 x20 x0c = Ok newCurrentMetadata) by reflexivity.
  split; [exact H | exact (newMetadata_DecodeMetadata _ _ _ _ _ [x07] H)].
Defined.

(** The reserved bytes are not checked: [DecodeMetadata] keeps whatever
    the source holds there, and [Verify] of the decoded metadata accepts
    the 32 bytes it was decoded from exactly when those 20 bytes are all
    zero ([Bytes] always writes zeros there). *)
Theorem DecodeMetadata_reserved_Verify (r rest : list byte) (m : Metadata_t) (n : nat)
    (err : option errors.Kind) :
  DecodeMetadata r = (Some m, n, err, rest) ->
  reserved m = firstn 20 (skipn 12 r) /\
  (Metadata_Verify m (firstn 32 r) = true <-> reserved m = repeat x00 20).
Proof.
  intros H.
  destruct (le_lt_dec 32 (length r)) as [Hl|Hl].
  2:{ destruct (DecodeMetadata_short_core r Hl) as [k Hk]. congruence. }
  rewrite (DecodeMetadata_long_eq r Hl) in H.
  assert (H32 : firstn 32 r = firstn 8 r ++ firstn 4 (skipn 8 r) ++ firstn 20 (skipn 12 r)).
  { change 32 with (8 + (4 + 20)). rewrite !firstn_add_split, skipn_skipn. reflexivity. }
  assert (Hv4 : length (firstn 4 (skipn 8 r)) = 4)
    by (rewrite length_firstn, length_skipn; lia).
  rewrite H32. clear H32.
  remember (firstn 8 r) as sig eqn:Esig.
  remember (firstn 4 (skipn 8 r)) as v eqn:Ev.
  remember (firstn 20 (skipn 12 r)) as res eqn:Eres.
  destruct (ValidateMetadata sig v res) eqn:Hv; [discriminate|].
  injection H as Hm _ _ _. subst m. cbn [reserved]. split; [reflexivity|].
  assert (Hs : bytes_Equal sig signatureHeader = true).
  { revert Hv. unfold ValidateMetadata.
    destruct (bytes_Equal _ _); [auto | discriminate]. }
  apply bytes_Equal_true in Hs. rewrite Hs.
  unfold Metadata_Verify, Metadata_Bytes. cbn [signature vsbn].
  rewrite bytes_Equal_iff.
  destruct v as [|y0 [|y1 [|y2 [|y3 [|y4 v]]]]]; try discriminate.
  change (firstn 8 signatureHeader) with signatureHeader.
  cbn [nth versionIndex saltSizeIndex blockSizeIndex nonceSizeIndex].
  split; intros Heq.
  - apply app_inv_head in Heq. apply (app_inv_head [y0; y1; y2; y3]) in Heq.
    exact (eq_sym Heq).
  - rewrite Heq. reflexivity.
Qed.

Lemma DecodeMetadata_reserved_Verify_witness :
  exists m n err rest,
    DecodeMetadata (signatureHeader ++ [x01; x20; x20; x0c] ++ x05 :: repeat x00 19)
      = (Some m, n, err, rest) /\
    (reserved m = firstn 20 (skipn 12 (signatureHeader ++ [x01; x20; x20; x0c] ++ x05 :: repeat x00 19)) /\
     (Metadata_Verify m (firstn 32 (signatureHeader ++ [x01; x20; x20; x0c] ++ x05 :: repeat x00 19))
        = true <-> reserved m = repeat x00 20)).
Proof.
  do 4 eexists.
  assert (H : DecodeMetadata (signatureHeader ++ [x01; x20; x20; x0c] ++ x05 :: repeat x00 19)
                = (Some _, _, _, _)) by reflexivity.
  split; [exact H | exact (DecodeMetadata_reserved_Verify _ _ _ _ _ H)].
Defined.

(** ** Encrypter: use of the random source *)

(** [Init] on an Encrypter that must derive a new key: a salt of
    [saltSize] random bytes, then the cipher, or the error. *)
Lemma Init_fresh
    (argon2_IDKey : list byte -> list byte -> N -> N -> N -> N -> list byte)
    (e : celo) (phrase rnd : list byte) :
  initialized e && preserveKey e = false ->
  Init argon2_IDKey e phrase rnd =
  if saltSize e <=? length rnd then
    if aes_key_ok (GenerateKey argon2_IDKey phrase (firstn (saltSize e) rnd) (blockSize e))
    then (set_cipher (set_salt (set_initialized e true) (Some (firstn (saltSize e) rnd)))
            (Some (mkCipher (blockSize e)
                     (GenerateKey argon2_IDKey phrase (firstn (saltSize e) rnd) (blockSize e)))),
          skipn (saltSize e) rnd, None)
    else (set_salt (set_initialized e true) (Some (firstn (saltSize e) rnd)),
          skipn (saltSize e) rnd, Some errors.Cipher)
  else (set_salt (set_initialized e true) None, [], Some errors.Salt).
Proof.
  intros Hp. unfold Init. rewrite Hp.
  change (saltSize (set_initialized e true)) with (saltSize e).
  unfold NewSalt, ReadFull.
  destruct (saltSize e <=? length rnd); [|reflexivity].
  cbv beta iota zeta.
  change (blockSize (set_salt (set_initialized e true) (Some (firstn (saltSize e) rnd))))
    with (blockSize e).
  change (nonceSize (set_salt (set_initialized e true) (Some (firstn (saltSize e) rnd))))
    with (nonceSize e).
  change (bytes_of (salt (set_salt (set_initialized e true) (Some (firstn (saltSize e) rnd)))))
    with (firstn (saltSize e) rnd).
  unfold NewCipher.
  destruct (aes_key_ok _); reflexivity.
Qed.

Lemma Encrypt_random_use_core
    (gcm_Seal : list byte -> list byte -> list byte -> list byte -> list byte)
    (argon2_IDKey : list byte -> list byte -> N -> N -> N -> N -> list byte)
    (e : celo) (phrase p rnd : list byte) :
  initialized e && preserveKey e = false ->
  aes_key_ok (GenerateKey argon2_IDKey phrase (firstn (saltSize e) rnd) (blockSize e)) = true ->
  (saltSize e + 12 <= length rnd ->
   exists e1,
     Encrypt gcm_Seal argon2_IDKey e phrase p rnd
     = Some (e1, skipn (saltSize e + 12) rnd,
             Ok (gcm_Seal (GenerateKey argon2_IDKey phrase (firstn (saltSize e) rnd) (blockSize e))
                          (firstn 12 (skipn (saltSize e) rnd)) p [])) /\
     salt e1 = Some (firstn (saltSize e) rnd) /\
     nonce e1 = Some (firstn 12 (skipn (saltSize e) rnd)) /\
     ciphertext e1
     = Some (gcm_Seal (GenerateKey argon2_IDKey phrase (firstn (saltSize e) rnd) (blockSize e))
                      (firstn 12 (skipn (saltSize e) rnd)) p []) /\
     IsReady e1 = true) /\
  (saltSize e <= length rnd < saltSize e + 12 ->
   exists e1,
     Encrypt gcm_Seal argon2_IDKey e phrase p rnd = Some (e1, [], Err errors.Encrypt) /\
     ciphertext e1 = None /\ nonce e1 = nonce e /\ IsReady e1 = true).
Proof.
  intros Hp Hk. unfold Encrypt. rewrite (Init_fresh _ _ _ _ Hp).
  split; intros Hl.
  - replace (saltSize e <=? length rnd) with true by (symmetry; apply Nat.leb_le; lia).
    rewrite Hk. cbv beta iota.
    change (cipher (set_cipher ?x ?c)) with c. cbv beta iota.
    unfold Cipher_Encrypt, Cipher_NonceSize, gcmStandardNonceSize. cbn [c_key].
    rewrite (proj1 (ReadFull_ok 12 (skipn (saltSize e) rnd)
                      ltac:(rewrite length_skipn; lia))).
    rewrite skipn_skipn, Nat.add_comm.
    eexists; split; [reflexivity | repeat split].
  - replace (saltSize e <=? length rnd) with true by (symmetry; apply Nat.leb_le; lia).
    rewrite Hk. cbv beta iota.
    change (cipher (set_cipher ?x ?c)) with c. cbv beta iota.
    unfold Cipher_Encrypt, Cipher_NonceSize, gcmStandardNonceSize, ReadFull.
    replace (12 <=? length (skipn (saltSize e) rnd)) with false
      by (symmetry; apply Nat.leb_gt; rewrite length_skipn; lia).
    eexists; split; [reflexivity | repeat split].
Qed.

(** An Encrypter that derives a new key takes its salt from the first
    [saltSize] random bytes and its nonce from the next 12 bytes (the GCM
    standard size, whatever [nonceSize] is), and consumes nothing more.
    When only the nonce cannot be drawn, [Encrypt] fails with an [Encrypt]
    error, leaves a nil ciphertext and the previous nonce, and the Encrypter
    stays ready. *)
Theorem Encrypt_random_use
    (gcm_Seal : list byte -> list byte -> list byte -> list byte -> list byte)
    (argon2_IDKey : list byte -> list byte -> N -> N -> N -> N -> list byte)
    (e : celo) (phrase p rnd : list byte) :
  initialized e && preserveKey e = false ->
  aes_key_ok (GenerateKey argon2_IDKey phrase (firstn (saltSize e) rnd) (blockSize e)) = true ->
  (saltSize e + 12 <= length rnd ->
   exists e1,
     Encrypt gcm_Seal argon2_IDKey e phrase p rnd
     = Some (e1, skipn (saltSize e + 12) rnd,
             Ok (gcm_Seal (GenerateKey argon2_IDKey phrase (firstn (saltSize e) rnd) (blockSize e))
                          (firstn 12 (skipn (saltSize e) rnd)) p [])) /\
     salt e1 = Some (firstn (saltSize e) rnd) /\
     nonce e1 = Some (firstn 12 (skipn (saltSize e) rnd)) /\
     ciphertext e1
     = Some (gcm_Seal (GenerateKey argon2_IDKey phrase (firstn (saltSize e) rnd) (blockSize e))
                      (firstn 12 (skipn (saltSize e) rnd)) p []) /\
     IsReady e1 = true) /\
  (saltSize e <= length rnd < saltSize e + 12 ->
   exists e1,
     Encrypt gcm_Seal argon2_IDKey e phrase p rnd = Some (e1, [], Err errors.Encrypt) /\
     ciphertext e1 = None /\ nonce e1 = nonce e /\ IsReady e1 = true).
Proof. exact (Encrypt_random_use_core gcm_Seal argon2_IDKey e phrase p rnd). Qed.

Lemma Encrypt_random_use_witness :
  initialized NewEncrypter && preserveKey NewEncrypter = false /\
  aes_key_ok (GenerateKey Toy.idkey [x41] (firstn (saltSize NewEncrypter) (repeat x07 44))
                (blockSize NewEncrypter)) = true /\
  exists e1,
    Encrypt Toy.seal Toy.idkey NewEncrypter [x41] [x50] (repeat x07 44)
    = Some (e1, skipn (saltSize NewEncrypter + 12) (repeat x07 44),
            Ok (Toy.seal (GenerateKey Toy.idkey [x41] (firstn (saltSize NewEncrypter) (repeat x07 44))
                            (blockSize NewEncrypter))
                         (firstn 12 (skipn (saltSize NewEncrypter) (repeat x07 44))) [x50] [])) /\
    salt e1 = Some (firstn (saltSize NewEncrypter) (repeat x07 44)) /\
    nonce e1 = Some (firstn 12 (skipn (saltSize NewEncrypter) (repeat x07 44))) /\
    ciphertext e1
    = Some (Toy.seal (GenerateKey Toy.idkey [x41] (firstn (saltSize NewEncrypter) (repeat x07 44))
                        (blockSize NewEncrypter))
                     (firstn 12 (skipn (saltSize NewEncrypter) (repeat x07 44))) [x50] []) /\
    IsReady e1 = true.
Proof.
  assert (Hp : initialized NewEncrypter && preserveKey NewEncrypter = false) by reflexivity.
  assert (Hk : aes_key_ok (GenerateKey Toy.idkey [x41]
                 (firstn (saltSize NewEncrypter) (repeat x07 44)) (blockSize NewEncrypter)) = true)
    by (vm_compute; reflexivity).
  split; [exact Hp|]. split; [exact Hk|].
  apply (proj1 (Encrypt_random_use Toy.seal Toy.idkey NewEncrypter [x41] [x50]
                  (repeat x07 44) Hp Hk)).
  vm_compute. lia.
Defined.

(** With [preserveKey], once the key is derived, [Encrypt] reuses the
    cached cipher (whatever phrase it is given) and the salt, and draws
    only a 12-byte nonce from the random source. *)
Theorem Encrypt_preserveKey_reuse
    (gcm_Seal : list byte -> list byte -> list byte -> list byte -> list byte)
    (argon2_IDKey : list byte -> list byte -> N -> N -> N -> N -> list byte)
    (e : celo) (c : Cipher_t) (phrase p rnd : list byte) :
  initialized e = true -> preserveKey e = true -> cipher e = Some c ->
  12 <= length rnd ->
  Encrypt gcm_Seal argon2_IDKey e phrase p rnd
  = Some (set_nonce (set_ciphertext e (Some (gcm_Seal (c_key c) (firstn 12 rnd) p [])))
            (Some (firstn 12 rnd)),
          skipn 12 rnd, Ok (gcm_Seal (c_key c) (firstn 12 rnd) p [])).
Proof.
  intros Hi Hp Hc Hl. unfold Encrypt, Init. rewrite Hi, Hp. cbn [andb]. cbv beta iota.
  rewrite Hc. unfold Cipher_Encrypt, Cipher_NonceSize, gcmStandardNonceSize.
  rewrite (proj1 (ReadFull_ok 12 rnd Hl)). reflexivity.
Qed.

Lemma Encrypt_preserveKey_reuse_witness :
  initialized preserved_state = true /\ preserveKey preserved_state = true /\
  cipher preserved_state = Some (mkCipher 32 (Toy.idkey [x41] (repeat x07 32) 1 (64 * 1024) 4 32)) /\
  12 <= length (repeat x09 12) /\
  Encrypt Toy.seal Toy.idkey preserved_state [x42] [x50] (repeat x09 12)
  = Some (set_nonce (set_ciphertext preserved_state
                       (Some (Toy.seal (c_key (mkCipher 32 (Toy.idkey [x41] (repeat x07 32) 1 (64 * 1024) 4 32)))
                                (firstn 12 (repeat x09 12)) [x50] [])))
            (Some (firstn 12 (repeat x09 12))),
          skipn 12 (repeat x09 12),
          Ok (Toy.seal (c_key (mkCipher 32 (Toy.idkey [x41] (repeat x07 32) 1 (64 * 1024) 4 32)))
                (firstn 12 (repeat x09 12)) [x50] [])).
Proof.
  assert (Hi : initialized preserved_state = true) by reflexivity.
  assert (Hp : preserveKey preserved_state = true) by reflexivity.
  assert (Hc : cipher preserved_state
               = Some (mkCipher 32 (Toy.idkey [x41] (repeat x07 32) 1 (64 * 1024) 4 32)))
    by (vm_compute; reflexivity).
  assert (Hl : 12 <= length (repeat x09 12)) by (simpl; lia).
  split; [exact Hi|]. split; [exact Hp|]. split; [exact Hc|]. split; [exact Hl|].
  exact (Encrypt_preserveKey_reuse Toy.seal Toy.idkey preserved_state _ [x42] [x50]
           (repeat x09 12) Hi Hp Hc Hl).
Defined.

Lemma Encrypt_ok_fresh_inv
    (gcm_Seal : list byte -> list byte -> list byte -> list byte -> list byte)
    (argon2_IDKey : list byte -> list byte -> N -> N -> N -> N -> list byte)
    (e e1 : celo) (phrase p rnd r1 ct : list byte) :
  initialized e && preserveKey e = false ->
  Encrypt gcm_Seal argon2_IDKey e phrase p rnd = Some (e1, r1, Ok ct) ->
  saltSize e + 12 <= length rnd /\
  aes_key_ok (GenerateKey argon2_IDKey phrase (firstn (saltSize e) rnd) (blockSize e)) = true.
Proof.
  intros Hp. unfold Encrypt. rewrite (Init_fresh _ _ _ _ Hp).
  destruct (Nat.leb_spec (saltSize e) (length rnd)) as [Hs|Hs];
    [|intros Hc; inversion Hc].
  destruct (aes_key_ok _) eqn:Hk; [|intros Hc; inversion Hc].
  change (cipher (set_cipher ?x ?c)) with c. cbv beta iota.
  unfold Cipher_Encrypt, Cipher_NonceSize, gcmStandardNonceSize, ReadFull.
  rewrite length_skipn.
  destruct (Nat.leb_spec 12 (length rnd - saltSize e)); [|intros Hc; inversion Hc].
  intros _. split; [lia | reflexivity].
Qed.

(** ** Decrypter.Init *)

(** [Decrypter.Init] refuses a salt or a nonce of the wrong size, checking
    the salt first, and then leaves the Decrypter untouched. *)
Theorem Decrypter_Init_size_checks
    (argon2_IDKey : list byte -> list byte -> N -> N -> N -> N -> list byte)
    (d : celo) (phrase : list byte) (s n ct : option (list byte)) :
  (length (bytes_of s) <> saltSize d ->
   Decrypter_Init argon2_IDKey d phrase s n ct = (d, Some errors.SaltSize)) /\
  (length (bytes_of s) = saltSize d -> length (bytes_of n) <> nonceSize d ->
   Decrypter_Init argon2_IDKey d phrase s n ct = (d, Some errors.NonceSize)).
Proof.
  unfold Decrypter_Init. split.
  - intros Hs. destruct (Nat.eqb_spec (length (bytes_of s)) (saltSize d)); [lia|reflexivity].
  - intros Hs Hn. rewrite Hs, Nat.eqb_refl. cbn [negb].
    destruct (Nat.eqb_spec (length (bytes_of n)) (nonceSize d)); [lia|reflexivity].
Qed.

(** Giving a default Decrypter, through [Init], the salt, nonce and
    ciphertext a default Encrypter produced for [P] under [K], and the same
    phrase, makes it ready, and [Decrypt] returns [P]. *)
Theorem Decrypter_Init_roundtrip
    (gcm_Seal : list byte -> list byte -> list byte -> list byte -> list byte)
    (gcm_Open : list byte -> list byte -> list byte -> list byte -> option (list byte))
    (argon2_IDKey : list byte -> list byte -> N -> N -> N -> N -> list byte)
    (gcm_Open_Seal : forall k n p, gcm_Open k n (gcm_Seal k n p []) [] = Some p)
    (K P rnd rnd1 ct : list byte) (e1 : celo) :
  Encrypt gcm_Seal argon2_IDKey NewEncrypter K P rnd = Some (e1, rnd1, Ok ct) ->
  exists d,
    Decrypter_Init argon2_IDKey NewDecrypter K (salt e1) (nonce e1) (ciphertext e1) = (d, None) /\
    IsReady d = true /\
    option_map snd (Decrypter_Decrypt gcm_Open argon2_IDKey d K) = Some (Ok P).
Proof.
  intros H.
  destruct (Encrypt_ok_fresh_inv _ _ NewEncrypter _ _ _ _ _ _ eq_refl H) as [Hl Hk].
  destruct (proj1 (Encrypt_random_use_core gcm_Seal argon2_IDKey NewEncrypter K P rnd eq_refl Hk) Hl)
    as (e2 & H2 & Hs & Hn & Hct & _).
  rewrite H in H2. assert (E1 : e2 = e1) by congruence. subst e2. clear H2.
  change (saltSize NewEncrypter) with 32 in *. change (blockSize NewEncrypter) with 32 in *.
  assert (Ls : length (firstn 32 rnd) = 32) by (rewrite length_firstn; lia).
  assert (Ln : length (firstn 12 (skipn 32 rnd)) = 12)
    by (rewrite length_firstn, length_skipn; lia).
  unfold Decrypter_Init. rewrite Hs, Hn. cbn [bytes_of].
  change (saltSize NewDecrypter) with 32. change (nonceSize NewDecrypter) with 12.
  rewrite Ls, Ln. cbn [Nat.eqb negb].
  change (blockSize (set_nonce (set_salt NewDecrypter (Some (firstn 32 rnd)))
                      (Some (firstn 12 (skipn 32 rnd))))) with 32.
  unfold NewCipher. rewrite Hk.
  eexists; split; [reflexivity|]. split; [reflexivity|].
  unfold Decrypter_Decrypt. cbn -[GenerateKey Cipher_Decrypt].
  unfold Cipher_Decrypt. cbn [c_key]. rewrite Hct. cbn [bytes_of].
  rewrite gcm_Open_Seal. reflexivity.
Qed.

Lemma Decrypter_Init_roundtrip_witness :
  exists e1 rnd1 ct,
    Encrypt Toy.seal Toy.idkey NewEncrypter [x41; x42] [x50; x51; x52] (repeat x07 44)
      = Some (e1, rnd1, Ok ct) /\
    exists d,
      Decrypter_Init Toy.idkey NewDecrypter [x41; x42] (salt e1) (nonce e1) (ciphertext e1)
        = (d, None) /\
      IsReady d = true /\
      option_map snd (Decrypter_Decrypt Toy.open Toy.idkey d [x41; x42])
      = Some (Ok [x50; x51; x52]).
Proof.
  do 3 eexists.
  assert (H : Encrypt Toy.seal Toy.idkey NewEncrypter [x41; x42] [x50; x51; x52]
                (repeat x07 44) = Some (_, _, Ok _)) by reflexivity.
  split; [exact H|].
  exact (Decrypter_Init_roundtrip Toy.seal Toy.open Toy.idkey Toy_open_seal _ _ _ _ _ _ H).
Defined.

(** ** Options *)

Lemma last_cons_default (A : Type) (y : A) (l : list A) (d d' : A) :
  last (y :: l) d = last (y :: l) d'.
Proof.
  revert y; induction l as [|z l IH]; intros y; [reflexivity|].
  change (last (z :: l) d = last (z :: l) d'). apply IH.
Qed.

(** [Config] applies the options in order: after a list of [SetExtension]
    options the extension is the last one given (unchanged for an empty
    list), and nothing else of the state changes. *)
Theorem Config_SetExtension_last (exts : list string) (c : celo) :
  Config (map SetExtension exts) c = SetExtension (last exts (ext c)) c.
Proof.
  unfold Config. revert c. induction exts as [|x exts IH]; intros c.
  - destruct c; reflexivity.
  - cbn [map fold_left]. rewrite IH.
    destruct exts as [|y exts']; [destruct c; reflexivity|].
    rewrite (last_cons_default _ y exts' _ (ext c)).
    change (last (x :: y :: exts') (ext c)) with (last (y :: exts') (ext c)).
    destruct c; reflexivity.
Qed.

(** ** The errors package *)

Lemma Kind_eqb_refl (k : errors.Kind) : errs.Kind_eqb k k = true.
Proof. unfold errs.Kind_eqb. destruct (errs.Kind_eq_dec k k); congruence. Qed.

Lemma Kind_eqb_neq (a b : errors.Kind) : a <> b -> errs.Kind_eqb a b = false.
Proof. unfold errs.Kind_eqb. destruct (errs.Kind_eq_dec a b); congruence. Qed.

(** [E(kind, op, entity, err)] with a kind other than [Other], the form of
    the errors collected by [EncryptMultipleFiles] and
    [DecryptMultipleFiles]: [Is] sees that kind only, whatever the kind of
    the underlying error. *)
Theorem E_explicit_kind_Is (k kind : errors.Kind) (op ent : string) (inner : errs.error) :
  k <> errors.Other ->
  errs.Is kind (errs.E [errs.AKind k; errs.AOp op; errs.AEntity ent; errs.AErr inner])
  = errs.Kind_eqb k kind.
Proof.
  intros Hk. unfold errs.E, errs.E_fields. cbn [fold_left].
  rewrite (Kind_eqb_neq _ _ Hk).
  destruct inner as [msg | pent pop pk pinner]; cbn; rewrite (Kind_eqb_neq _ _ Hk); reflexivity.
Qed.

Lemma E_explicit_kind_Is_witness :
  errors.Encrypt <> errors.Other /\
  errs.Is errors.Exist
    (errs.E [errs.AKind errors.Encrypt; errs.AOp "encrypter.EncryptMultipleFiles"%string;
             errs.AEntity "a.txt"%string;
             errs.AErr (errs.CErr EmptyString "file.Create"%string errors.Exist None)])
  = errs.Kind_eqb errors.Encrypt errors.Exist.
Proof.
  split; [discriminate|]. apply E_explicit_kind_Is. discriminate.
Defined.

Lemma E_fields_no_kind (args : list errs.arg) (ent op : string) (k : errors.Kind)
    (inner : option errs.error) :
  forallb (fun a => negb (errs.is_kind_arg a)) args = true ->
  exists ent' op',
    fold_left (fun acc a =>
      let '(ent, op, k, inner) := acc in
      match a with
      | errs.AEntity s => (s, op, k, inner)
      | errs.AOp s => (ent, s, k, inner)
      | errs.AKind k' => (ent, op, k', inner)
      | errs.AErr x => (ent, op, k, Some x)
      end) args (ent, op, k, inner)
    = (ent', op', k,
       fold_left (fun acc a => match a with errs.AErr x => Some x | _ => acc end) args inner).
Proof.
  revert ent op inner. induction args as [|a args IH]; intros ent op inner Hf.
  - exists ent, op. reflexivity.
  - cbn [forallb] in Hf. apply andb_prop in Hf as [Ha Hf].
    destruct a as [s|s|k'|x]; cbn [fold_left]; try apply IH; auto. discriminate.
Qed.

(** [E] without a kind argument (or only [Other]-free arguments of other
    types) takes its kind from the underlying error: [Is] answers for the
    result exactly as for the last error argument (and [Is] of nil is
    false). *)
Theorem E_pulls_kind_Is (args : list errs.arg) (kind : errors.Kind) :
  args <> [] ->
  forallb (fun a => negb (errs.is_kind_arg a)) args = true ->
  errs.Is kind (errs.E args) = errs.Is kind (errs.last_err args).
Proof.
  intros Hne Hf. unfold errs.E.
  destruct args as [|a0 args0] eqn:Ea; [contradiction|]. rewrite <- Ea.
  destruct (E_fields_no_kind args EmptyString EmptyString errors.Other None) as (ent & op & Hfold).
  { rewrite Ea. exact Hf. }
  unfold errs.E_fields. rewrite Hfold. fold (errs.last_err args).
  destruct (errs.last_err args) as [[msg | pent pop pk pinner]|]; cbn [errs.Is]; try reflexivity.
  change (errs.Kind_eqb errors.Other errors.Other) with true. cbv beta iota zeta.
  destruct (errs.Kind_eq_dec pk errors.Other) as [->|Hpk].
  - reflexivity.
  - rewrite (Kind_eqb_neq _ _ Hpk). cbn. rewrite (Kind_eqb_neq _ _ Hpk). reflexivity.
Qed.

Lemma E_pulls_kind_Is_witness :
  [errs.AOp "decrypter.Read"%string; errs.AErr (errs.CErr EmptyString EmptyString errors.Salt None)]
    <> [] /\
  forallb (fun a => negb (errs.is_kind_arg a))
    [errs.AOp "decrypter.Read"%string; errs.AErr (errs.CErr EmptyString EmptyString errors.Salt None)]
  = true /\
  errs.Is errors.Salt
    (errs.E [errs.AOp "decrypter.Read"%string;
             errs.AErr (errs.CErr EmptyString EmptyString errors.Salt None)])
  = errs.Is errors.Salt
      (errs.last_err [errs.AOp "decrypter.Read"%string;
                      errs.AErr (errs.CErr EmptyString EmptyString errors.Salt None)]).
Proof.
  split; [discriminate|]. split; [reflexivity|].
  apply E_pulls_kind_Is; [discriminate | reflexivity].
Defined.

(** ** Reading and confirming the phrase *)

(** A non-empty phrase is answered by its confirmation: equal, it is
    returned; different, [ReadAndConfirmPhrase] fails with
    [PhraseMismatch] at once, whatever the number of retries, and reads
    nothing more. *)
Theorem ReadAndConfirmPhrase_first_answer (retries : nat) (p q : list byte) (rest : stdin) :
  p <> [] ->
  ReadAndConfirmPhrase retries (Some p :: Some q :: rest)
  = (if bytes_Equal p q then Ok p else Err errors.PhraseMismatch, rest).
Proof.
  intros Hp. unfold ReadAndConfirmPhrase. cbn [confirm_loop].
  replace ((retries =? 0) || (1 <=? retries)) with true
    by (destruct retries; reflexivity).
  cbn [ReadPhrase].
  replace (length p =? 0) with false by (destruct p; [contradiction | reflexivity]).
  destruct (bytes_Equal p q); reflexivity.
Qed.

Lemma ReadAndConfirmPhrase_first_answer_witness :
  [x41] <> [] /\
  ReadAndConfirmPhrase 3 [Some [x41]; Some [x42]; Some [x41]; Some [x41]]
  = (if bytes_Equal [x41] [x42] then Ok [x41] else Err errors.PhraseMismatch,
     [Some [x41]; Some [x41]]).
Proof. split; [discriminate|]. apply ReadAndConfirmPhrase_first_answer. discriminate. Defined.

Lemma confirm_loop_empties_ok (retries : nat) (p : list byte) (rest : stdin) :
  p <> [] ->
  forall j i fuel, 1 <= i -> i + j <= retries -> j < fuel ->
  confirm_loop fuel retries i (repeat (Some []) j ++ Some p :: Some p :: rest) = (Ok p, rest).
Proof.
  intros Hp j. induction j as [|j IH]; intros i fuel Hi Hij Hf;
    (destruct fuel as [|fuel]; [lia|]); cbn [confirm_loop].
  - replace ((retries =? 0) || (i <=? retries)) with true
      by (symmetry; apply orb_true_iff; right; apply Nat.leb_le; lia).
    cbn [repeat app ReadPhrase].
    replace (length p =? 0) with false by (destruct p; [contradiction | reflexivity]).
    rewrite bytes_Equal_refl. reflexivity.
  - replace ((retries =? 0) || (i <=? retries)) with true
      by (symmetry; apply orb_true_iff; right; apply Nat.leb_le; lia).
    cbn [repeat app ReadPhrase length Nat.eqb].
    replace (i <? retries) with true by (symmetry; apply Nat.ltb_lt; lia).
    apply IH; lia.
Qed.

Lemma confirm_loop_empties_fail (retries : nat) (inp : stdin) :
  forall j i fuel, 1 <= i <= retries -> retries - i < j -> retries - i < fuel ->
  confirm_loop fuel retries i (repeat (Some []) j ++ inp)
  = (Err errors.PhraseIsEmpty, repeat (Some []) (j - (retries - i + 1)) ++ inp).
Proof.
  intros j. induction j as [|j IH]; intros i fuel Hi Hj Hf; [lia|].
  destruct fuel as [|fuel]; [lia|]. cbn [confirm_loop].
  replace ((retries =? 0) || (i <=? retries)) with true
    by (symmetry; apply orb_true_iff; right; apply Nat.leb_le; lia).
  cbn [repeat app ReadPhrase length Nat.eqb].
  destruct (Nat.ltb_spec i retries) as [Hlt|Hge].
  - rewrite (IH (S i) fuel) by lia.
    replace (j - (retries - S i + 1)) with (S j - (retries - i + 1)) by lia. reflexivity.
  - replace (S j - (retries - i + 1)) with j by lia. reflexivity.
Qed.

(** Empty phrases are counted as tries: with [k] empty answers first,
    [ReadAndConfirmPhrase retries] still accepts a confirmed phrase when
    [k < retries], and fails with [PhraseIsEmpty] once [max 1 retries]
    empty answers are read, reading no further; with [retries = 0]
    (documented as unlimited) the first empty phrase already fails. *)
Theorem ReadAndConfirmPhrase_empty_tries (retries k : nat) (p : list byte) (rest inp : stdin) :
  p <> [] ->
  (k < retries ->
   ReadAndConfirmPhrase retries (repeat (Some []) k ++ Some p :: Some p :: rest) = (Ok p, rest)) /\
  (Nat.max 1 retries <= k ->
   ReadAndConfirmPhrase retries (repeat (Some []) k ++ inp)
   = (Err errors.PhraseIsEmpty, repeat (Some []) (k - Nat.max 1 retries) ++ inp)).
Proof.
  intros Hp. unfold ReadAndConfirmPhrase. split; intros Hk.
  - apply confirm_loop_empties_ok; auto; lia.
  - destruct retries as [|r].
    + destruct k as [|k]; [lia|]. cbn. rewrite Nat.sub_0_r. reflexivity.
    + rewrite (confirm_loop_empties_fail (S r) inp k 1 (S (S r))) by lia.
      replace (k - (S r - 1 + 1)) with (k - Nat.max 1 (S r)) by lia. reflexivity.
Qed.

Lemma ReadAndConfirmPhrase_empty_tries_witness :
  [x41] <> [] /\
  ReadAndConfirmPhrase 0 (repeat (Some []) 1 ++ [Some [x41]; Some [x41]])
  = (Err errors.PhraseIsEmpty, repeat (Some []) (1 - Nat.max 1 0) ++ [Some [x41]; Some [x41]]).
Proof.
  split; [discriminate|].
  exact (proj2 (ReadAndConfirmPhrase_empty_tries 0 1 [x41] [] [Some [x41]; Some [x41]]
                  ltac:(discriminate)) ltac:(simpl; lia)).
Defined.

(** ** Decrypter.Read *)

Lemma DecodeMetadata_err (r : list byte) :
  match DecodeMetadata r with
  | (Some _, _, e, _) => e = None
  | (None, _, e, _) => e <> None
  end.
Proof.
  unfold DecodeMetadata.
  destruct (ReadFull 8 r) as [[[a b] [x|]] c]; [discriminate|].
  destruct (ReadFull 4 c) as [[[a' b'] [x'|]] c']; [discriminate|].
  destruct (ReadFull 20 c') as [[[a'' b''] [x''|]] c'']; [discriminate|].
  destruct (ValidateMetadata a a' a''); [discriminate | reflexivity].
Qed.

(** A [Read] that succeeds marks the Decrypter ready and drains the source;
    a [Read] that fails leaves the ready flag as it was, so a Decrypter
    that was ready stays ready even though the failed [Read] may already
    have replaced its metadata, salt and nonce. *)
Theorem Read_ready_flag (d d' : celo) (r rest : list byte) (n : nat) (err : option errors.Kind) :
  Read d r = (d', n, err, rest) ->
  match err with
  | None => IsReady d' = true /\ rest = []
  | Some _ => IsReady d' = IsReady d
  end.
Proof.
  pose proof (DecodeMetadata_err r) as He. unfold Read.
  destruct (DecodeMetadata r) as [[[[m|] n0] e0] r1].
  2:{ intros H; inversion H; subst. destruct err; [reflexivity | contradiction]. }
  destruct (ReadFull (saltSize (set_metadata d (Some m))) r1) as [[[s sn'] [x|]] r2].
  { intros H; inversion H; subst; reflexivity. }
  cbv zeta.
  set (d1 := match salt (set_metadata d (Some m)) with
             | Some old => if bytes_Equal s old then set_metadata d (Some m)
                           else set_cipher (set_salt (set_metadata d (Some m)) (Some s)) None
             | None => set_cipher (set_salt (set_metadata d (Some m)) (Some s)) None
             end).
  assert (Hd1 : initialized d1 = initialized d).
  { unfold d1. destruct (salt _); [destruct (bytes_Equal _ _)|]; reflexivity. }
  destruct (ReadFull (nonceSize d1) r2) as [[[nb nn'] [y|]] r3].
  - intros H; inversion H; subst. exact Hd1.
  - unfold ReadAll. intros H; inversion H; subst. split; reflexivity.
Qed.

Lemma Read_ready_flag_witness :
  exists d' n rest,
    Read (rd NewDecrypter toy_envelope) (firstn 70 toy_envelope)
    = (d', n, Some errors.Nonce, rest) /\
    IsReady d' = IsReady (rd NewDecrypter toy_envelope) /\
    IsReady d' = true.
Proof.
  set (R := Read (rd NewDecrypter toy_envelope) (firstn 70 toy_envelope)).
  exists (fst (fst (fst R))), (snd (fst (fst R))), (snd R).
  assert (H : R = (fst (fst (fst R)), snd (fst (fst R)), Some errors.Nonce, snd R))
    by (unfold R; vm_compute; reflexivity).
  split; [exact H|]. split.
  - exact (Read_ready_flag _ _ _ _ _ _ H).
  - unfold R; vm_compute; reflexivity.
Defined.

(** What [Write] puts in a sink, [Read] gives back to a default Decrypter:
    for a ready Encrypter whose metadata was built by [newMetadata] and
    whose salt and nonce have the default sizes, the Decrypter gets the same
    metadata, salt, nonce and ciphertext (a nil ciphertext comes back
    empty) and is ready; the count [Read] reports is the length of the
    ciphertext alone. *)
Theorem Write_Read_fields (e : celo) (m : Metadata_t) (v b s n : byte) :
  IsReady e = true -> metadata e = Some m -> newMetadata v b s n = Ok m ->
  length (bytes_of (salt e)) = SaltSize -> length (bytes_of (nonce e)) = NonceSize ->
  exists w d k,
    Write e (mkSink [] None) = Some (0, None, w) /\
    Read NewDecrypter (s_data w) = (d, k, None, []) /\
    metadata d = Some m /\ salt d = Some (bytes_of (salt e)) /\
    nonce d = Some (bytes_of (nonce e)) /\ ciphertext d = Some (bytes_of (ciphertext e)) /\
    IsReady d = true /\ k = length (bytes_of (ciphertext e)).
Proof.
  intros Hr Hm Hn Hs Hnc.
  rewrite (Write_unlimited e (mkSink [] None) m Hr Hm eq_refl).
  eexists; eexists; eexists; split; [reflexivity|].
  cbn [s_data app]. unfold Read.
  rewrite (proj1 (newMetadata_DecodeMetadata_core v b s n m _ Hn)).
  cbv beta iota zeta.
  change (saltSize (set_metadata NewDecrypter (Some m))) with SaltSize.
  rewrite (ReadFull_app _ _ _ Hs). cbv beta iota zeta.
  change (nonceSize (set_cipher (set_salt (set_metadata NewDecrypter (Some m))
                                   (Some (bytes_of (salt e)))) None)) with NonceSize.
  rewrite (ReadFull_app _ _ _ Hnc). unfold ReadAll. cbv beta iota zeta.
  split; [reflexivity|]. repeat split.
Qed.

Lemma Write_Read_fields_witness :
  IsReady ready_encrypter = true /\ metadata ready_encrypter = Some newCurrentMetadata /\
  newMetadata x01 x20 x20 x0c = Ok newCurrentMetadata /\
  length (bytes_of (salt ready_encrypter)) = SaltSize /\
  length (bytes_of (nonce ready_encrypter)) = NonceSize /\
  exists w d k,
    Write ready_encrypter (mkSink [] None) = Some (0, None, w) /\
    Read NewDecrypter (s_data w) = (d, k, None, []) /\
    metadata d = Some newCurrentMetadata /\ salt d = Some (bytes_of (salt ready_encrypter)) /\
    nonce d = Some (bytes_of (nonce ready_encrypter)) /\
    ciphertext d = Some (bytes_of (ciphertext ready_encrypter)) /\
    IsReady d = true /\ k = length (bytes_of (ciphertext ready_encrypter)).
Proof.
  assert (H1 : IsReady ready_encrypter = true) by reflexivity.
  assert (H2 : metadata ready_encrypter = Some newCurrentMetadata) by reflexivity.
  assert (H3 : newMetadata x01 x20 x20 x0c = Ok newCurrentMetadata) by reflexivity.
  assert (H4 : length (bytes_of (salt ready_encrypter)) = SaltSize) by reflexivity.
  assert (H5 : length (bytes_of (nonce ready_encrypter)) = NonceSize) by reflexivity.
  split; [exact H1|]. split; [exact H2|]. split; [exact H3|]. split; [exact H4|].
  split; [exact H5|].
  exact (Write_Read_fields _ _ _ _ _ _ H1 H2 H3 H4 H5).
Defined.

(** An envelope whose header is valid but which is cut inside the salt
    fails with a [Salt] error, one cut inside the nonce with a [Nonce]
    error. *)
Theorem Read_short_envelope (d : celo) (m : Metadata_t) (v b s n : byte) (tail : list byte) :
  newMetadata v b s n = Ok m ->
  length tail < saltSize d + nonceSize d ->
  exists d' k rest,
    Read d (Metadata_Bytes m ++ tail)
    = (d', k, Some (if length tail <? saltSize d then errors.Salt else errors.Nonce), rest).
Proof.
  intros Hn Hl. unfold Read.
  rewrite (proj1 (newMetadata_DecodeMetadata_core v b s n m tail Hn)).
  cbv beta iota zeta.
  change (saltSize (set_metadata d (Some m))) with (saltSize d).
  destruct (Nat.ltb_spec (length tail) (saltSize d)) as [Hs|Hs].
  - unfold ReadFull at 1.
    replace (saltSize d <=? length tail) with false by (symmetry; apply Nat.leb_gt; lia).
    do 3 eexists; reflexivity.
  - rewrite (proj1 (ReadFull_ok (saltSize d) tail Hs)). cbv beta iota zeta.
    set (d1 := match salt (set_metadata d (Some m)) with
               | Some old => if bytes_Equal (firstn (saltSize d) tail) old
                             then set_metadata d (Some m)
                             else set_cipher (set_salt (set_metadata d (Some m))
                                                (Some (firstn (saltSize d) tail))) None
               | None => set_cipher (set_salt (set_metadata d (Some m))
                                       (Some (firstn (saltSize d) tail))) None
               end).
    assert (Hd1 : nonceSize d1 = nonceSize d).
    { unfold d1. destruct (salt _); [destruct (bytes_Equal _ _)|]; reflexivity. }
    unfold ReadFull at 1. rewrite Hd1, length_skipn.
    replace (nonceSize d <=? length tail - saltSize d) with false
      by (symmetry; apply Nat.leb_gt; lia).
    do 3 eexists; reflexivity.
Qed.

Lemma Read_short_envelope_witness :
  newMetadata x01 x20 x20 x0c = Ok newCurrentMetadata /\
  length (repeat x07 40) < saltSize NewDecrypter + nonceSize NewDecrypter /\
  exists d' k rest,
    Read NewDecrypter (Metadata_Bytes newCurrentMetadata ++ repeat x07 40)
    = (d', k, Some (if length (repeat x07 40) <? saltSize NewDecrypter
                    then errors.Salt else errors.Nonce), rest).
Proof.
  assert (H1 : newMetadata x01 x20 x20 x0c = Ok newCurrentMetadata) by reflexivity.
  assert (H2 : length (repeat x07 40) < saltSize NewDecrypter + nonceSize NewDecrypter)
    by (vm_compute; lia).
  split; [exact H1|]. split; [exact H2|].
  exact (Read_short_envelope _ _ _ _ _ _ _ H1 H2).
Defined.

(** ** Files *)

Lemma fs_lookup_drop (n m : string) (l : list (string * node)) :
  fs_lookup (fs_drop n l) m = if String.eqb n m then None else fs_lookup l m.
Proof.
  induction l as [|[k v] l IH]; cbn [fs_drop filter fs_lookup fst].
  - destruct (String.eqb n m); reflexivity.
  - fold (fs_drop n l). destruct (String.eqb_spec k n) as [->|Hkn]; cbn [negb].
    + rewrite IH. destruct (String.eqb_spec n m) as [->|]; [reflexivity|].
      reflexivity.
    + cbn [fs_lookup]. rewrite IH.
      destruct (String.eqb_spec k m) as [->|]; [|reflexivity].
      destruct (String.eqb_spec n m) as [->|]; [contradiction|reflexivity].
Qed.

Lemma fs_get_commit (fs : fsys) (n m : string) (w : sink) :
  fs_get (fs_commit fs n w) m = if String.eqb n m then Some (File (s_data w)) else fs_get fs m.
Proof.
  unfold fs_get, fs_commit. cbn [fs_files fs_lookup].
  rewrite fs_lookup_drop. destruct (String.eqb n m); reflexivity.
Qed.

Lemma fs_room_commit (fs : fsys) (n : string) (w : sink) : fs_room (fs_commit fs n w) = s_room w.
Proof. reflexivity. Qed.

Lemma fs_get_remove (fs : fsys) (n m : string) :
  fs_get (os_Remove fs n) m =
  if String.eqb n m then match fs_get fs n with Some (File _) => None | x => x end
  else fs_get fs m.
Proof.
  unfold os_Remove. destruct (String.eqb_spec n m) as [<-|Hnm].
  - destruct (fs_get fs n) as [[d| | |]|] eqn:Hg; try exact Hg.
    unfold fs_get. cbn [fs_files]. rewrite fs_lookup_drop, String.eqb_refl. reflexivity.
  - destruct (fs_get fs n) as [[d| | |]|]; try reflexivity.
    unfold fs_get. cbn [fs_files]. rewrite fs_lookup_drop.
    apply String.eqb_neq in Hnm. rewrite Hnm. reflexivity.
Qed.

Lemma Init_keeps (argon2_IDKey : list byte -> list byte -> N -> N -> N -> N -> list byte)
    (e e1 : celo) (phrase rnd r1 : list byte) (err : option errors.Kind) :
  Init argon2_IDKey e phrase rnd = (e1, r1, err) ->
  ext e1 = ext e /\ metadata e1 = metadata e.
Proof.
  unfold Init. destruct (initialized e && preserveKey e).
  - intros H; inversion H; subst; split; reflexivity.
  - destruct (NewSalt _ _) as [[[s c] [k|]] r'].
    + intros H; inversion H; subst; split; reflexivity.
    + destruct (NewCipher _ _ _); intros H; inversion H; subst; split; reflexivity.
Qed.

(** A successful [Encrypt] leaves the Encrypter ready, with its extension
    and metadata. *)
Lemma Encrypt_ok_keeps
    (gcm_Seal : list byte -> list byte -> list byte -> list byte -> list byte)
    (argon2_IDKey : list byte -> list byte -> N -> N -> N -> N -> list byte)
    (e e1 : celo) (phrase p rnd r1 ct : list byte) :
  Encrypt gcm_Seal argon2_IDKey e phrase p rnd = Some (e1, r1, Ok ct) ->
  IsReady e1 = true /\ ext e1 = ext e /\ metadata e1 = metadata e.
Proof.
  unfold Encrypt.
  destruct (Init argon2_IDKey e phrase rnd) as [[e0 r0] [k|]] eqn:HI; [intros H; inversion H|].
  destruct (Init_keeps _ _ _ _ _ _ _ HI) as [Hx Hm].
  assert (Hr : initialized e0 = true).
  { revert HI. unfold Init. destruct (initialized e) eqn:Hi; cbn [andb].
    - destruct (preserveKey e).
      + intros H; inversion H; subst; exact Hi.
      + destruct (NewSalt _ _) as [[[s c] [k|]] r'].
        * intros H; inversion H.
        * destruct (NewCipher _ _ _); intros H; inversion H; reflexivity.
    - destruct (NewSalt _ _) as [[[s c] [k|]] r'].
      + intros H; inversion H.
      + destruct (NewCipher _ _ _); intros H; inversion H; reflexivity. }
  destruct (cipher e0) as [c|]; [|discriminate].
  destruct (Cipher_Encrypt gcm_Seal c p [] r0) as [[[nn ct']|k] r2]; intros H; inversion H; subst.
  repeat split; assumption.
Qed.

Lemma Encrypt_keeps_ext
    (gcm_Seal : list byte -> list byte -> list byte -> list byte -> list byte)
    (argon2_IDKey : list byte -> list byte -> N -> N -> N -> N -> list byte)
    (e e1 : celo) (phrase p rnd r1 : list byte) (res : result (list byte)) :
  Encrypt gcm_Seal argon2_IDKey e phrase p rnd = Some (e1, r1, res) -> ext e1 = ext e.
Proof.
  unfold Encrypt.
  destruct (Init argon2_IDKey e phrase rnd) as [[e0 r0] err] eqn:HI.
  destruct (Init_keeps _ _ _ _ _ _ _ HI) as [Hx _].
  destruct err as [k|]; [intros H; inversion H; subst; exact Hx|].
  destruct (cipher e0) as [c|]; [|discriminate].
  destruct (Cipher_Encrypt gcm_Seal c p [] r0) as [[[nn ct']|k] r2]; intros H; inversion H; subst;
    exact Hx.
Qed.

(** Without [overwrite], [EncryptFile] never touches a path that already
    exists under the encrypted name: it fails and leaves the file system
    as it was. *)
Theorem EncryptFile_no_overwrite
    (gcm_Seal : list byte -> list byte -> list byte -> list byte -> list byte)
    (argon2_IDKey : list byte -> list byte -> N -> N -> N -> N -> list byte)
    (e e1 : celo) (phrase : list byte) (name : string) (removeSource : bool)
    (fs fs1 : fsys) (rnd r1 : list byte) (res : result string) :
  fs_get fs (GetEncryptedFileName e name) <> None ->
  EncryptFile gcm_Seal argon2_IDKey e phrase name false removeSource fs rnd = Some (e1, fs1, r1, res) ->
  fs1 = fs /\ exists k, res = Err k.
Proof.
  intros Ht. unfold EncryptFile.
  destruct (os_Open fs name) as [|plaintext|];
    [intros H; inversion H; subst; eauto | | intros H; inversion H; subst; eauto].
  destruct (Encrypt gcm_Seal argon2_IDKey e phrase plaintext rnd) as [[[e2 r2] [ct|k]]|] eqn:HE;
    [| intros H; inversion H; subst; eauto | discriminate].
  assert (Hx : GetEncryptedFileName e2 name = GetEncryptedFileName e name).
  { unfold GetEncryptedFileName. now rewrite (Encrypt_keeps_ext _ _ _ _ _ _ _ _ _ HE). }
  cbv zeta. rewrite Hx. unfold file_Create, os_Stat.
  destruct (fs_get fs (GetEncryptedFileName e name)) as [[d| | |]|];
    [| | | | contradiction]; cbn; intros H; inversion H; subst; eauto.
Qed.

Lemma EncryptFile_no_overwrite_witness :
  exists e1 r1 res,
    fs_get (mkFS [("a"%string, File toy_P); ("a.celo"%string, File [x01])] None [])
      (GetEncryptedFileName NewEncrypter "a") <> None /\
    EncryptFile Toy.seal Toy.idkey NewEncrypter toy_K "a" false true
      (mkFS [("a"%string, File toy_P); ("a.celo"%string, File [x01])] None []) (repeat x07 44)
    = Some (e1, mkFS [("a"%string, File toy_P); ("a.celo"%string, File [x01])] None [], r1, res) /\
    (mkFS [("a"%string, File toy_P); ("a.celo"%string, File [x01])] None []
     = mkFS [("a"%string, File toy_P); ("a.celo"%string, File [x01])] None [] /\
     exists k, res = Err k).
Proof.
  do 3 eexists.
  assert (Ht : fs_get (mkFS [("a"%string, File toy_P); ("a.celo"%string, File [x01])] None [])
                 (GetEncryptedFileName NewEncrypter "a") <> None) by discriminate.
  assert (H : EncryptFile Toy.seal Toy.idkey NewEncrypter toy_K "a" false true
                (mkFS [("a"%string, File toy_P); ("a.celo"%string, File [x01])] None [])
                (repeat x07 44)
              = Some (_, mkFS [("a"%string, File toy_P); ("a.celo"%string, File [x01])] None [], _, _))
    by reflexivity.
  split; [exact Ht|]. split; [exact H|].
  exact (EncryptFile_no_overwrite Toy.seal Toy.idkey _ _ _ _ _ _ _ _ _ _ Ht H).
Defined.

Ltac case_matches_in H :=
  repeat match type of H with
         | context [match ?x with _ => _ end] => destruct x
         end.

Lemma Write_err_kind (e : celo) (w w' : sink) (n : nat) (k : errors.Kind) :
  Write e w = Some (n, Some k, w') -> k = errors.NotReady \/ k = errors.Encode.
Proof.
  unfold Write. intros H. case_matches_in H; inversion H; auto.
Qed.

Lemma Read_keeps_ext (d : celo) (r : list byte) : ext (fst (fst (fst (Read d r)))) = ext d.
Proof.
  unfold Read.
  repeat match goal with
         | |- context [match ?x with _ => _ end] => destruct x
         end; reflexivity.
Qed.

Lemma Decrypter_Decrypt_keeps_ext
    (gcm_Open : list byte -> list byte -> list byte -> list byte -> option (list byte))
    (argon2_IDKey : list byte -> list byte -> N -> N -> N -> N -> list byte)
    (d d' : celo) (phrase : list byte) (res : result (list byte)) :
  Decrypter_Decrypt gcm_Open argon2_IDKey d phrase = Some (d', res) -> ext d' = ext d.
Proof.
  unfold Decrypter_Decrypt. destruct (IsReady d); cbn [negb].
  - assert (Hc : ext (fst (match cipher d with None => initCipher argon2_IDKey d phrase | Some _ => (d, None) end))
                 = ext d).
    { unfold initCipher. destruct (cipher d); [reflexivity|].
      destruct (NewCipher _ _ _); reflexivity. }
    destruct (match cipher d with None => initCipher argon2_IDKey d phrase | Some _ => (d, None) end)
      as [d1 err]. cbn in Hc.
    intros H. case_matches_in H; inversion H; subst; exact Hc.
  - intros H; inversion H; reflexivity.
Qed.

(** With an empty extension the encrypted file takes the name of its
    source: a successful [EncryptFile] that removes its source returns the
    source's own name and leaves no file under it, the envelope included. *)
Theorem EncryptFile_empty_ext_removes
    (gcm_Seal : list byte -> list byte -> list byte -> list byte -> list byte)
    (argon2_IDKey : list byte -> list byte -> N -> N -> N -> N -> list byte)
    (e e1 : celo) (phrase : list byte) (name en : string) (overwrite : bool)
    (fs fs1 : fsys) (rnd r1 : list byte) :
  ext e = EmptyString ->
  EncryptFile gcm_Seal argon2_IDKey e phrase name overwrite true fs rnd = Some (e1, fs1, r1, Ok en) ->
  en = name /\ fs_get fs1 name = None.
Proof.
  intros Hx. unfold EncryptFile.
  destruct (os_Open fs name) as [|plaintext|]; try discriminate.
  destruct (Encrypt gcm_Seal argon2_IDKey e phrase plaintext rnd) as [[[e2 r2] [ct|k]]|] eqn:HE;
    try discriminate.
  assert (Hn : GetEncryptedFileName e2 name = name).
  { unfold GetEncryptedFileName. now rewrite (Encrypt_keeps_ext _ _ _ _ _ _ _ _ _ HE), Hx. }
  cbv zeta. rewrite Hn.
  destruct (file_Create name overwrite fs) as [[ex [k|]] fs2]; try discriminate.
  destruct (Write e2 (mkSink [] (fs_room fs2))) as [[[wn [k|]] w]|]; try discriminate.
  intros H; inversion H; subst. split; [reflexivity|].
  rewrite fs_get_remove, String.eqb_refl, fs_get_commit, String.eqb_refl. reflexivity.
Qed.

Lemma EncryptFile_empty_ext_removes_witness :
  exists e1 fs1 r1,
    EncryptFile Toy.seal Toy.idkey (SetExtension EmptyString NewEncrypter) toy_K "a"
      true true (mkFS [("a"%string, File toy_P)] None []) (repeat x07 44)
    = Some (e1, fs1, r1, Ok "a"%string) /\
    ("a"%string = "a"%string /\ fs_get fs1 "a" = None).
Proof.
  do 3 eexists.
  assert (H : EncryptFile Toy.seal Toy.idkey (SetExtension EmptyString NewEncrypter) toy_K "a"
                true true (mkFS [("a"%string, File toy_P)] None []) (repeat x07 44)
              = Some (_, _, _, Ok "a"%string)) by reflexivity.
  split; [exact H|].
  exact (EncryptFile_empty_ext_removes Toy.seal Toy.idkey (SetExtension EmptyString NewEncrypter)
           _ _ _ _ _ _ _ _ _ eq_refl H).
Defined.

(** The same for [DecryptFile]: with an empty extension the decrypted file
    takes the name of the encrypted one, and removing the source afterwards
    leaves no file under the name returned. *)
Theorem DecryptFile_empty_ext_removes
    (gcm_Open : list byte -> list byte -> list byte -> list byte -> option (list byte))
    (argon2_IDKey : list byte -> list byte -> N -> N -> N -> N -> list byte)
    (d d' : celo) (phrase : list byte) (name dn : string) (overwrite : bool) (fs fs1 : fsys) :
  ext d = EmptyString ->
  DecryptFile gcm_Open argon2_IDKey d phrase name overwrite true fs = Some (d', fs1, Ok dn) ->
  dn = name /\ fs_get fs1 name = None.
Proof.
  intros Hx. unfold DecryptFile.
  destruct (os_Open fs name) as [|data|]; try discriminate.
  pose proof (Read_keeps_ext d data) as Hr.
  destruct (Read d data) as [[[d1 n] [k|]] r1]; try discriminate. cbn in Hr.
  destruct (Decrypter_Decrypt gcm_Open argon2_IDKey d1 phrase) as [[d2 [p|k]]|] eqn:HD;
    try discriminate.
  assert (Hn : GetDecryptedFileName d2 name = name).
  { unfold GetDecryptedFileName.
    now rewrite (Decrypter_Decrypt_keeps_ext _ _ _ _ _ _ HD), Hr, Hx. }
  cbv zeta. rewrite Hn.
  destruct (file_Create name overwrite fs) as [[ex [k|]] fs2]; try discriminate.
  destruct (sink_Write (mkSink [] (fs_room fs2)) p) as [[wn [k|]] w]; try discriminate.
  intros H; inversion H; subst. split; [reflexivity|].
  rewrite fs_get_remove, String.eqb_refl, fs_get_commit, String.eqb_refl. reflexivity.
Qed.

Lemma DecryptFile_empty_ext_removes_witness :
  exists d' fs1,
    DecryptFile Toy.open Toy.idkey (SetExtension EmptyString NewDecrypter) toy_K "a"
      true true (mkFS [("a"%string, File toy_envelope)] None [])
    = Some (d', fs1, Ok "a"%string) /\
    ("a"%string = "a"%string /\ fs_get fs1 "a" = None).
Proof.
  do 2 eexists.
  assert (H : DecryptFile Toy.open Toy.idkey (SetExtension EmptyString NewDecrypter) toy_K "a"
                true true (mkFS [("a"%string, File toy_envelope)] None [])
              = Some (_, _, Ok "a"%string)) by (vm_compute; reflexivity).
  split; [exact H|].
  exact (DecryptFile_empty_ext_removes Toy.open Toy.idkey (SetExtension EmptyString NewDecrypter)
           _ _ _ _ _ _ _ eq_refl H).
Defined.

Lemma Init_err_kind (argon2_IDKey : list byte -> list byte -> N -> N -> N -> N -> list byte)
    (e e1 : celo) (phrase rnd r1 : list byte) (k : errors.Kind) :
  Init argon2_IDKey e phrase rnd = (e1, r1, Some k) -> k = errors.Salt \/ k = errors.Cipher.
Proof.
  unfold Init, NewSalt, NewCipher.
  destruct (initialized e && preserveKey e); [intros H; inversion H|].
  destruct (ReadFull _ rnd) as [[[s n] [x|]] r']; [intros H; inversion H; auto|].
  destruct (aes_key_ok _); intros H; inversion H; auto.
Qed.

Lemma Encrypt_err_kind
    (gcm_Seal : list byte -> list byte -> list byte -> list byte -> list byte)
    (argon2_IDKey : list byte -> list byte -> N -> N -> N -> N -> list byte)
    (e e1 : celo) (phrase p rnd r1 : list byte) (k : errors.Kind) :
  Encrypt gcm_Seal argon2_IDKey e phrase p rnd = Some (e1, r1, Err k) ->
  k = errors.Salt \/ k = errors.Cipher \/ k = errors.Encrypt.
Proof.
  unfold Encrypt.
  destruct (Init argon2_IDKey e phrase rnd) as [[e0 r0] [k0|]] eqn:HI.
  - intros H; inversion H; subst. destruct (Init_err_kind _ _ _ _ _ _ _ HI); auto.
  - destruct (cipher e0) as [c|]; [|discriminate].
    unfold Cipher_Encrypt.
    destruct (ReadFull (Cipher_NonceSize c) r0) as [[[nn cnt] [x|]] r2];
      intros H; inversion H; auto.
Qed.

(** When the target of [EncryptFile] is an existing regular file and the
    envelope cannot be written into it, the target is deleted: [file.Create]
    reports [exist = false] for a file that [os.Stat] found, so the clean-up
    meant for a file it created removes the file that was there before. *)
Theorem EncryptFile_write_failure_removes_target
    (gcm_Seal : list byte -> list byte -> list byte -> list byte -> list byte)
    (argon2_IDKey : list byte -> list byte -> N -> N -> N -> N -> list byte)
    (e e1 : celo) (phrase : list byte) (name : string) (overwrite removeSource : bool)
    (fs fs1 : fsys) (rnd r1 old : list byte) :
  fs_get fs (GetEncryptedFileName e name) = Some (File old) ->
  EncryptFile gcm_Seal argon2_IDKey e phrase name overwrite removeSource fs rnd
    = Some (e1, fs1, r1, Err errors.Encode) ->
  fs_get fs1 (GetEncryptedFileName e name) = None.
Proof.
  intros Ht. unfold EncryptFile.
  destruct (os_Open fs name) as [|plaintext|]; try (intros H; inversion H; fail).
  destruct (Encrypt gcm_Seal argon2_IDKey e phrase plaintext rnd) as [[[e2 r2] [ct|k]]|] eqn:HE;
    [| | discriminate].
  2:{ intros H; inversion H; subst.
      destruct (Encrypt_err_kind _ _ _ _ _ _ _ _ _ HE) as [?|[?|?]]; discriminate. }
  assert (Hx : GetEncryptedFileName e2 name = GetEncryptedFileName e name).
  { unfold GetEncryptedFileName. now rewrite (Encrypt_keeps_ext _ _ _ _ _ _ _ _ _ HE). }
  cbv zeta. rewrite Hx.
  unfold file_Create, os_Stat. rewrite Ht. cbn [andb negb].
  destruct overwrite; cbn [negb]; [|intros H; inversion H].
  destruct (os_Create_fails fs (GetEncryptedFileName e name)); [intros H; inversion H|].
  destruct (Write e2 _) as [[[wn [k|]] w]|]; [| intros H; inversion H | discriminate].
  intros H; inversion H; subst.
  rewrite fs_get_remove, String.eqb_refl, fs_get_commit, String.eqb_refl. reflexivity.
Qed.

Lemma EncryptFile_write_failure_removes_target_witness :
  exists e1 fs1 r1,
    fs_get (mkFS [("a"%string, File toy_P); ("a.celo"%string, File [x01])] (Some 0) [])
      (GetEncryptedFileName NewEncrypter "a") = Some (File [x01]) /\
    EncryptFile Toy.seal Toy.idkey NewEncrypter toy_K "a" true false
      (mkFS [("a"%string, File toy_P); ("a.celo"%string, File [x01])] (Some 0) []) (repeat x07 44)
    = Some (e1, fs1, r1, Err errors.Encode) /\
    fs_get fs1 (GetEncryptedFileName NewEncrypter "a") = None.
Proof.
  do 3 eexists.
  assert (Ht : fs_get (mkFS [("a"%string, File toy_P); ("a.celo"%string, File [x01])] (Some 0) [])
                 (GetEncryptedFileName NewEncrypter "a") = Some (File [x01])) by reflexivity.
  assert (H : EncryptFile Toy.seal Toy.idkey NewEncrypter toy_K "a" true false
                (mkFS [("a"%string, File toy_P); ("a.celo"%string, File [x01])] (Some 0) [])
                (repeat x07 44)
              = Some (_, _, _, Err errors.Encode)) by reflexivity.
  split; [exact Ht|]. split; [exact H|].
  exact (EncryptFile_write_failure_removes_target Toy.seal Toy.idkey _ _ _ _ _ _ _ _ _ _ _ Ht H).
Defined.

(** Every failure of [EncryptFile] other than a failed write of the
    envelope leaves the file system as it was: nothing is created, truncated
    or removed. *)
Theorem EncryptFile_failure_keeps_fs
    (gcm_Seal : list byte -> list byte -> list byte -> list byte -> list byte)
    (argon2_IDKey : list byte -> list byte -> N -> N -> N -> N -> list byte)
    (e e1 : celo) (phrase : list byte) (name : string) (overwrite removeSource : bool)
    (fs fs1 : fsys) (rnd r1 : list byte) (k : errors.Kind) :
  EncryptFile gcm_Seal argon2_IDKey e phrase name overwrite removeSource fs rnd
    = Some (e1, fs1, r1, Err k) ->
  k <> errors.Encode -> fs1 = fs.
Proof.
  unfold EncryptFile.
  destruct (os_Open fs name) as [|plaintext|]; try (intros H; inversion H; reflexivity).
  destruct (Encrypt gcm_Seal argon2_IDKey e phrase plaintext rnd) as [[[e2 r2] [ct|k2]]|] eqn:HE;
    [| intros H; inversion H; reflexivity | discriminate].
  destruct (Encrypt_ok_keeps _ _ _ _ _ _ _ _ _ HE) as [Hr [_ Hm]].
  cbv zeta.
  destruct (file_Create (GetEncryptedFileName e2 name) overwrite fs) as [[ex [k1|]] fs2] eqn:HC.
  - intros H; inversion H; subst. revert HC. unfold file_Create.
    cbv zeta. destruct (os_Create_fails fs _), (os_Stat fs _); try destruct (negb overwrite);
      intros HC; inversion HC; reflexivity.
  - destruct (Write e2 (mkSink [] (fs_room fs2))) as [[[wn [k1|]] w]|] eqn:HW;
      [| intros H; inversion H | discriminate].
    intros H Hk. destruct (Write_err_kind _ _ _ _ _ HW) as [Hk1|Hk1]; subst k1.
    + exfalso. revert HW. unfold Write. rewrite Hr. cbn [negb].
      destruct (metadata e2); [|discriminate].
      intros HW. case_matches_in HW; inversion HW.
    + inversion H; subst; contradiction.
Qed.

Lemma EncryptFile_failure_keeps_fs_witness :
  exists e1 r1,
    EncryptFile Toy.seal Toy.idkey NewEncrypter toy_K "a" true true
      (mkFS [("a"%string, File toy_P)] None []) (repeat x07 40)
    = Some (e1, mkFS [("a"%string, File toy_P)] None [], r1, Err errors.Encrypt) /\
    errors.Encrypt <> errors.Encode /\
    mkFS [("a"%string, File toy_P)] None [] = mkFS [("a"%string, File toy_P)] None [].
Proof.
  do 2 eexists.
  assert (H : EncryptFile Toy.seal Toy.idkey NewEncrypter toy_K "a" true true
                (mkFS [("a"%string, File toy_P)] None []) (repeat x07 40)
              = Some (_, mkFS [("a"%string, File toy_P)] None [], _, Err errors.Encrypt))
    by reflexivity.
  assert (Hk : errors.Encrypt <> errors.Encode) by discriminate.
  split; [exact H|]. split; [exact Hk|].
  exact (EncryptFile_failure_keeps_fs Toy.seal Toy.idkey _ _ _ _ _ _ _ _ _ _ _ H Hk).
Defined.

(** Every failure of [DecryptFile] other than a failed write of the
    plaintext ([errors.Create]) leaves the file system as it was. *)
Theorem DecryptFile_failure_keeps_fs
    (gcm_Open : list byte -> list byte -> list byte -> list byte -> option (list byte))
    (argon2_IDKey : list byte -> list byte -> N -> N -> N -> N -> list byte)
    (d d' : celo) (phrase : list byte) (name : string) (overwrite removeSource : bool)
    (fs fs1 : fsys) (k : errors.Kind) :
  DecryptFile gcm_Open argon2_IDKey d phrase name overwrite removeSource fs
    = Some (d', fs1, Err k) ->
  k <> errors.Create -> fs1 = fs.
Proof.
  unfold DecryptFile.
  destruct (os_Open fs name) as [|data|]; try (intros H; inversion H; reflexivity).
  destruct (Read d data) as [[[d1 n] [k1|]] r1]; [intros H; inversion H; reflexivity|].
  destruct (Decrypter_Decrypt gcm_Open argon2_IDKey d1 phrase) as [[d2 [p|k2]]|];
    [| intros H; inversion H; reflexivity | discriminate].
  cbv zeta.
  destruct (file_Create (GetDecryptedFileName d2 name) overwrite fs) as [[ex [k1|]] fs2] eqn:HC.
  - intros H; inversion H; subst. revert HC. unfold file_Create.
    cbv zeta. destruct (os_Create_fails fs _), (os_Stat fs _); try destruct (negb overwrite);
      intros HC; inversion HC; reflexivity.
  - destruct (sink_Write (mkSink [] (fs_room fs2)) p) as [[wn [x|]] w];
      intros H Hk; inversion H; subst; contradiction.
Qed.

Lemma DecryptFile_failure_keeps_fs_witness :
  exists d',
    DecryptFile Toy.open Toy.idkey NewDecrypter [x00] "a.celo" true true
      (mkFS [("a.celo"%string, File toy_envelope)] None [])
    = Some (d', mkFS [("a.celo"%string, File toy_envelope)] None [], Err errors.Decrypt) /\
    errors.Decrypt <> errors.Create /\
    mkFS [("a.celo"%string, File toy_envelope)] None []
    = mkFS [("a.celo"%string, File toy_envelope)] None [].
Proof.
  eexists.
  assert (H : DecryptFile Toy.open Toy.idkey NewDecrypter [x00] "a.celo" true true
                (mkFS [("a.celo"%string, File toy_envelope)] None [])
              = Some (_, mkFS [("a.celo"%string, File toy_envelope)] None [], Err errors.Decrypt))
    by (vm_compute; reflexivity).
  assert (Hk : errors.Decrypt <> errors.Create) by discriminate.
  split; [exact H|]. split; [exact Hk|].
  exact (DecryptFile_failure_keeps_fs Toy.open Toy.idkey _ _ _ _ _ _ _ _ _ H Hk).
Defined.

Lemma EncryptMultipleFiles_loop_acc
    (gcm_Seal : list byte -> list byte -> list byte -> list byte -> list byte)
    (argon2_IDKey : list byte -> list byte -> N -> N -> N -> N -> list byte)
    (phrase : list byte) (overwrite removeSource : bool) (names : list string) :
  forall e fs rnd done errs e' fs' rnd' done' errs',
  EncryptMultipleFiles_loop gcm_Seal argon2_IDKey e phrase names overwrite removeSource
    fs rnd done errs = Some (e', fs', rnd', done', errs') ->
  length done' + length errs' = length done + length errs + length names /\
  (forall nm k, In (nm, k) errs' -> In (nm, k) errs \/ In nm names).
Proof.
  induction names as [|nm names IH]; intros e fs rnd done errs e' fs' rnd' done' errs' H;
    cbn [EncryptMultipleFiles_loop] in H.
  - inversion H; subst. split; [cbn; lia | auto].
  - destruct (EncryptFile gcm_Seal argon2_IDKey e phrase nm overwrite removeSource fs rnd)
      as [[[[e1 fs1] r1] [en|k]]|]; [| |discriminate].
    + destruct (IH _ _ _ _ _ _ _ _ _ _ H) as [Hl Hi].
      rewrite length_app in Hl. cbn in Hl. split; [cbn [length]; lia|].
      intros x k Hx. destruct (Hi x k Hx); cbn; auto.
    + destruct (IH _ _ _ _ _ _ _ _ _ _ H) as [Hl Hi].
      rewrite length_app in Hl. cbn in Hl. split; [cbn [length]; lia|].
      intros x k' Hx. destruct (Hi x k' Hx) as [Hx'|Hx']; cbn; auto.
      apply in_app_or in Hx'. destruct Hx' as [Hx'|[Hx'|[]]]; [auto|].
      inversion Hx'; subst; auto.
Qed.

Lemma DecryptMultipleFiles_loop_acc
    (gcm_Open : list byte -> list byte -> list byte -> list byte -> option (list byte))
    (argon2_IDKey : list byte -> list byte -> N -> N -> N -> N -> list byte)
    (phrase : list byte) (overwrite removeSource : bool) (names : list string) :
  forall d fs done errs d' fs' done' errs',
  DecryptMultipleFiles_loop gcm_Open argon2_IDKey d phrase names overwrite removeSource
    fs done errs = Some (d', fs', done', errs') ->
  length done' + length errs' = length done + length errs + length names /\
  (forall nm k, In (nm, k) errs' -> In (nm, k) errs \/ In nm names).
Proof.
  induction names as [|nm names IH]; intros d fs done errs d' fs' done' errs' H;
    cbn [DecryptMultipleFiles_loop] in H.
  - inversion H; subst. split; [cbn; lia | auto].
  - destruct (DecryptFile gcm_Open argon2_IDKey d phrase nm overwrite removeSource fs)
      as [[[d1 fs1] [dn|k]]|]; [| |discriminate].
    + destruct (IH _ _ _ _ _ _ _ _ H) as [Hl Hi].
      rewrite length_app in Hl. cbn in Hl. split; [cbn [length]; lia|].
      intros x k Hx. destruct (Hi x k Hx); cbn; auto.
    + destruct (IH _ _ _ _ _ _ _ _ H) as [Hl Hi].
      rewrite length_app in Hl. cbn in Hl. split; [cbn [length]; lia|].
      intros x k' Hx. destruct (Hi x k' Hx) as [Hx'|Hx']; cbn; auto.
      apply in_app_or in Hx'. destruct Hx' as [Hx'|[Hx'|[]]]; [auto|].
      inversion Hx'; subst; auto.
Qed.

(** [EncryptMultipleFiles] accounts for every name once: the names
    encrypted and the errors together are as many as the names given, and
    every error is about one of the names. *)
Theorem EncryptMultipleFiles_accounting
    (gcm_Seal : list byte -> list byte -> list byte -> list byte -> list byte)
    (argon2_IDKey : list byte -> list byte -> N -> N -> N -> N -> list byte)
    (e e' : celo) (phrase : list byte) (names done : list string)
    (overwrite removeSource : bool) (fs fs' : fsys) (rnd rnd' : list byte)
    (errs : list (string * errors.Kind)) :
  EncryptMultipleFiles gcm_Seal argon2_IDKey e phrase names overwrite removeSource fs rnd
    = Some (e', fs', rnd', done, errs) ->
  length done + length errs = length names /\ (forall nm k, In (nm, k) errs -> In nm names).
Proof.
  intros H. destruct (EncryptMultipleFiles_loop_acc _ _ _ _ _ _ _ _ _ _ _ _ _ _ _ _ H) as [Hl Hi].
  split; [cbn in Hl; lia|]. intros nm k Hx. destruct (Hi nm k Hx) as [[]|]; assumption.
Qed.

Lemma EncryptMultipleFiles_accounting_witness :
  exists e' fs' rnd',
    EncryptMultipleFiles Toy.seal Toy.idkey NewEncrypter toy_K ["a"%string; "b"%string] false false
      (mkFS [("a"%string, File toy_P)] None []) (repeat x07 88)
    = Some (e', fs', rnd', ["a.celo"%string], [("b"%string, errors.Open)]) /\
    (length ["a.celo"%string] + length [("b"%string, errors.Open)] = length ["a"%string; "b"%string]
     /\ (forall nm k, In (nm, k) [("b"%string, errors.Open)] -> In nm ["a"%string; "b"%string])).
Proof.
  do 3 eexists.
  assert (H : EncryptMultipleFiles Toy.seal Toy.idkey NewEncrypter toy_K ["a"%string; "b"%string]
                false false (mkFS [("a"%string, File toy_P)] None []) (repeat x07 88)
              = Some (_, _, _, ["a.celo"%string], [("b"%string, errors.Open)])) by reflexivity.
  split; [exact H|].
  exact (EncryptMultipleFiles_accounting Toy.seal Toy.idkey _ _ _ _ _ _ _ _ _ _ _ _ H).
Defined.

(** [DecryptMultipleFiles] accounts for every name once, in the same way. *)
Theorem DecryptMultipleFiles_accounting
    (gcm_Open : list byte -> list byte -> list byte -> list byte -> option (list byte))
    (argon2_IDKey : list byte -> list byte -> N -> N -> N -> N -> list byte)
    (d d' : celo) (phrase : list byte) (names done : list string)
    (overwrite removeSource : bool) (fs fs' : fsys) (errs : list (string * errors.Kind)) :
  DecryptMultipleFiles gcm_Open argon2_IDKey d phrase names overwrite removeSource fs
    = Some (d', fs', done, errs) ->
  length done + length errs = length names /\ (forall nm k, In (nm, k) errs -> In nm names).
Proof.
  intros H. destruct (DecryptMultipleFiles_loop_acc _ _ _ _ _ _ _ _ _ _ _ _ _ _ H) as [Hl Hi].
  split; [cbn in Hl; lia|]. intros nm k Hx. destruct (Hi nm k Hx) as [[]|]; assumption.
Qed.

Lemma DecryptMultipleFiles_accounting_witness :
  exists d' fs',
    DecryptMultipleFiles Toy.open Toy.idkey NewDecrypter toy_K ["a.celo"%string; "b.celo"%string]
      false false (mkFS [("a.celo"%string, File toy_envelope)] None [])
    = Some (d', fs', ["a"%string], [("b.celo"%string, errors.Open)]) /\
    (length ["a"%string] + length [("b.celo"%string, errors.Open)]
       = length ["a.celo"%string; "b.celo"%string]
     /\ (forall nm k, In (nm, k) [("b.celo"%string, errors.Open)] ->
                      In nm ["a.celo"%string; "b.celo"%string])).
Proof.
  do 2 eexists.
  assert (H : DecryptMultipleFiles Toy.open Toy.idkey NewDecrypter toy_K
                ["a.celo"%string; "b.celo"%string] false false
                (mkFS [("a.celo"%string, File toy_envelope)] None [])
              = Some (_, _, ["a"%string], [("b.celo"%string, errors.Open)]))
    by (vm_compute; reflexivity).
  split; [exact H|].
  exact (DecryptMultipleFiles_accounting Toy.open Toy.idkey _ _ _ _ _ _ _ _ _ _ H).
Defined.

(** The envelope written after a successful [Encrypt] reads back and decrypts
    to the plaintext, its sink keeping no limit. *)
Lemma envelope_roundtrip
    (gcm_Seal : list byte -> list byte -> list byte -> list byte -> list byte)
    (gcm_Open : list byte -> list byte -> list byte -> list byte -> option (list byte))
    (argon2_IDKey : list byte -> list byte -> N -> N -> N -> N -> list byte)
    (gcm_Open_Seal : forall k n p, gcm_Open k n (gcm_Seal k n p []) [] = Some p)
    (K P rnd rnd1 ct : list byte) (e1 : celo) :
  Encrypt gcm_Seal argon2_IDKey NewEncrypter K P rnd = Some (e1, rnd1, Ok ct) ->
  exists n w, Write e1 (mkSink [] None) = Some (n, None, w) /\ s_room w = None /\
  length (s_data w) = 76 + length ct /\
  exists d n', Read NewDecrypter (s_data w) = (d, n', None, []) /\
    option_map snd (Decrypter_Decrypt gcm_Open argon2_IDKey d K) = Some (Ok P).
Proof.
  intros H. unfold Encrypt in H.
  destruct (Init argon2_IDKey NewEncrypter K rnd) as [[e0 r0] [k|]] eqn:HI; [discriminate|].
  destruct (cipher e0) as [c|] eqn:Hc; [|discriminate].
  destruct (Cipher_Encrypt gcm_Seal c P [] r0) as [[[nn ct']|k] r2] eqn:HE; [|discriminate].
  inversion H; subst; clear H.
  unfold Init in HI. cbn [initialized preserveKey NewEncrypter andb] in HI.
  change (saltSize (set_initialized NewEncrypter true)) with SaltSize in HI.
  unfold NewSalt in HI.
  destruct (le_lt_dec SaltSize (length rnd)) as [Hl|Hl].
  2:{ unfold ReadFull in HI.
      replace (SaltSize <=? length rnd) with false in HI
        by (symmetry; apply Nat.leb_gt; lia).
      cbv beta iota zeta in HI. injection HI. intros. discriminate. }
  destruct (ReadFull_ok SaltSize rnd Hl) as [HR Hsl].
  rewrite HR in HI.
  remember (firstn SaltSize rnd) as sl eqn:Esl.
  remember (skipn SaltSize rnd) as r1 eqn:Er1.
  cbv beta iota zeta in HI.
  change (GenerateKey argon2_IDKey K
            (bytes_of (salt (set_salt (set_initialized NewEncrypter true) (Some sl))))
            (blockSize (set_salt (set_initialized NewEncrypter true) (Some sl))))
    with (GenerateKey argon2_IDKey K sl 32) in HI.
  remember (GenerateKey argon2_IDKey K sl 32) as key eqn:Ekey.
  unfold NewCipher in HI.
  destruct (aes_key_ok key) eqn:Hk; [|inversion HI].
  inversion HI; subst e0 r0; clear HI.
  cbn in Hc. inversion Hc; subst c; clear Hc.
  unfold Cipher_Encrypt, Cipher_NonceSize, gcmStandardNonceSize in HE. cbn [c_key] in HE.
  destruct (le_lt_dec 12 (length r1)) as [Hn|Hn].
  2:{ unfold ReadFull in HE.
      replace (12 <=? length r1) with false in HE
        by (symmetry; apply Nat.leb_gt; lia).
      cbv beta iota zeta in HE. congruence. }
  destruct (ReadFull_ok 12 r1 Hn) as [HR2 Hnl].
  rewrite HR2 in HE.
  remember (firstn 12 r1) as nc eqn:Enc.
  cbv beta iota zeta in HE.
  inversion HE; subst nn ct rnd1; clear HE.
  rewrite (Write_unlimited _ _ newCurrentMetadata) by reflexivity.
  eexists; eexists; split; [reflexivity|]. split; [reflexivity|].
  cbn [s_data bytes_of salt nonce ciphertext set_nonce set_ciphertext set_cipher
       set_salt set_initialized NewEncrypter app].
  split; [rewrite !length_app, Hsl, Hnl, Metadata_Bytes_current_length; reflexivity|].
  unfold Read. rewrite DecodeMetadata_current.
  cbn -[ReadFull Metadata_Bytes DecodeMetadata].
  rewrite (ReadFull_app _ sl _ Hsl).
  cbn -[ReadFull Metadata_Bytes DecodeMetadata].
  rewrite (ReadFull_app _ nc _ Hnl).
  cbn -[ReadFull Metadata_Bytes DecodeMetadata].
  eexists; eexists; split; [reflexivity|].
  unfold Decrypter_Decrypt, initCipher.
  cbn -[GenerateKey NewCipher Cipher_Decrypt].
  change Aes256BlockSize with 32. rewrite <- Ekey. unfold NewCipher. rewrite Hk.
  cbn -[GenerateKey Cipher_Decrypt].
  unfold Cipher_Decrypt. cbn [c_key]. rewrite gcm_Open_Seal. reflexivity.
Qed.

Lemma fs_room_remove (fs : fsys) (n : string) : fs_room (os_Remove fs n) = fs_room fs.
Proof. unfold os_Remove. destruct (fs_get fs n) as [[]|]; reflexivity. Qed.

Lemma append_celo_neq (name : string) : String.append name ".celo" <> name.
Proof.
  intros H. apply (f_equal String.length) in H. rewrite str_length_append in H. cbn in H. lia.
Qed.

Lemma fs_nocreate_remove (fs : fsys) (n : string) : fs_nocreate (os_Remove fs n) = fs_nocreate fs.
Proof. unfold os_Remove. destruct (fs_get fs n) as [[]|]; reflexivity. Qed.

(** A write that fits in the room left. *)
Lemma sink_Write_fits (d p : list byte) (o : option nat) :
  match o with None => True | Some r => length p <= r end ->
  sink_Write (mkSink d o) p
  = (length p, None, mkSink (d ++ p) (option_map (fun r => r - length p) o)).
Proof.
  destruct o as [r|]; cbn [sink_Write s_room s_data option_map]; [|reflexivity].
  intros H. destruct (Nat.leb_spec (length p) r); [reflexivity|lia].
Qed.

(** What [Write] writes into an unlimited sink, it writes the same way into
    a sink with room enough for it. *)
Lemma Write_fits (e : celo) (n : nat) (d : list byte) (o : option nat) :
  Write e (mkSink [] None) = Some (n, None, mkSink d None) ->
  match o with None => True | Some r => length d <= r end ->
  Write e (mkSink [] o) = Some (n, None, mkSink d (option_map (fun r => r - length d) o)).
Proof.
  destruct o as [r|]; [|intros H _; exact H].
  intros H Hf. destruct (IsReady e) eqn:Hr.
  2:{ unfold Write in H. rewrite Hr in H. discriminate. }
  destruct (metadata e) as [m|] eqn:Hm.
  2:{ unfold Write in H. rewrite Hr, Hm in H. discriminate. }
  rewrite (Write_unlimited e (mkSink [] None) m Hr Hm eq_refl) in H.
  injection H as <- Hd. cbn [s_data app] in Hd. subst d.
  rewrite !length_app in Hf.
  unfold Write. rewrite Hr, Hm. cbn [negb]. unfold sink_Write.
  repeat (cbv beta iota zeta; cbn [s_room s_data]; cbv beta iota zeta; cbn [s_room s_data];
          match goal with |- context [?a <=? ?b] => destruct (Nat.leb_spec a b); [|lia] end).
  cbv beta iota zeta. cbn [s_data app option_map Nat.add].
  rewrite !app_assoc, !length_app.
  assert (Hsub : forall a b c d, r - a - b - c - d = r - (a + b + c + d)) by lia.
  rewrite Hsub. reflexivity.
Qed.

(** A file encrypted by a default Encrypter into a new [.celo] file with its
    source removed, then decrypted by a default Decrypter with the same
    phrase and its source removed, is back under its name with its content;
    the [.celo] file is gone and no other path has changed.  This needs
    [os.Create] to succeed at both paths and the device to have room for
    the envelope (the 32 metadata bytes, the 32-byte salt, the 12-byte
    nonce and the ciphertext) and then the plaintext; AES-GCM enters only
    through its correctness. *)
Theorem EncryptFile_DecryptFile_roundtrip
    (gcm_Seal : list byte -> list byte -> list byte -> list byte -> list byte)
    (gcm_Open : list byte -> list byte -> list byte -> list byte -> option (list byte))
    (argon2_IDKey : list byte -> list byte -> N -> N -> N -> N -> list byte)
    (gcm_Open_Seal : forall k n p, gcm_Open k n (gcm_Seal k n p []) [] = Some p)
    (K P rnd r1 ct : list byte) (e1 : celo) (name : string) (fs : fsys) :
  name <> EmptyString ->
  fs_get fs name = Some (File P) ->
  fs_get fs (String.append name ".celo") = None ->
  os_Create_fails fs (String.append name ".celo") = false ->
  os_Create_fails fs name = false ->
  match fs_room fs with None => True | Some r => 76 + length ct + length P <= r end ->
  Encrypt gcm_Seal argon2_IDKey NewEncrypter K P rnd = Some (e1, r1, Ok ct) ->
  exists fs1,
    EncryptFile gcm_Seal argon2_IDKey NewEncrypter K name false true fs rnd
      = Some (e1, fs1, r1, Ok (String.append name ".celo")) /\
    fs_get fs1 name = None /\
    exists d fs2,
      DecryptFile gcm_Open argon2_IDKey NewDecrypter K (String.append name ".celo") false true fs1
        = Some (d, fs2, Ok name) /\
      fs_get fs2 name = Some (File P) /\
      fs_get fs2 (String.append name ".celo") = None /\
      (forall x, x <> name -> x <> String.append name ".celo" -> fs_get fs2 x = fs_get fs x).
Proof.
  intros Hne Hsrc Htgt Hct Hcn Hroom HE.
  pose proof (append_celo_neq name) as Htn.
  remember (String.append name ".celo") as t eqn:Et.
  destruct (Encrypt_ok_keeps _ _ _ _ _ _ _ _ _ HE) as [Hr [Hx Hm]].
  assert (Hen : GetEncryptedFileName e1 name = t)
    by (unfold GetEncryptedFileName; rewrite Hx, Et; reflexivity).
  destruct (envelope_roundtrip _ _ _ gcm_Open_Seal _ _ _ _ _ _ HE)
    as [n [w [HW [Hwr [Hwl [d [n' [HR HD]]]]]]]].
  destruct w as [wd wr]. cbn [s_room s_data] in Hwr, Hwl, HR. subst wr.
  destruct (Decrypter_Decrypt gcm_Open argon2_IDKey d K) as [[d2 res]|] eqn:HD2;
    cbn in HD; inversion HD; subst res; clear HD.
  pose proof (Read_keeps_ext NewDecrypter wd) as Hdx. rewrite HR in Hdx. cbn in Hdx.
  pose proof (Decrypter_Decrypt_keeps_ext _ _ _ _ _ _ HD2) as Hd2x.
  remember (fs_room fs) as o eqn:Eo.
  assert (HW' : Write e1 (mkSink [] o)
                = Some (n, None, mkSink wd (option_map (fun r => r - length wd) o))).
  { apply (Write_fits e1 n wd o HW). destruct o; [lia | exact I]. }
  set (o1 := option_map (fun r => r - length wd) o).
  set (fs1 := os_Remove (fs_commit (fs_commit fs t (mkSink [] o)) t (mkSink wd o1)) name).
  assert (Hf1n : fs_get fs1 name = None).
  { unfold fs1. rewrite fs_get_remove, String.eqb_refl, !fs_get_commit.
    destruct (String.eqb_spec t name) as [|_]; [contradiction|]. rewrite Hsrc. reflexivity. }
  assert (Hf1t : fs_get fs1 t = Some (File wd)).
  { unfold fs1. rewrite fs_get_remove.
    destruct (String.eqb_spec name t) as [<-|_]; [contradiction|].
    rewrite fs_get_commit, String.eqb_refl. reflexivity. }
  assert (Hf1r : fs_room fs1 = o1).
  { unfold fs1. rewrite fs_room_remove. reflexivity. }
  assert (Hf1c : os_Create_fails fs1 name = false).
  { unfold os_Create_fails, fs1. rewrite fs_nocreate_remove. exact Hcn. }
  exists fs1. split; [|split; [exact Hf1n|]].
  { unfold EncryptFile, os_Open. rewrite Hsrc, HE. cbv zeta. rewrite Hen.
    unfold file_Create, os_Stat. rewrite Htgt, Hct. cbn [andb negb]. rewrite <- Eo.
    cbn [fs_room fs_commit s_room]. rewrite HW'. reflexivity. }
  assert (Hdn : GetDecryptedFileName d2 t = name).
  { unfold GetDecryptedFileName. rewrite Hd2x, Hdx.
    change (ext NewDecrypter) with "celo"%string.
    cbn -[HasSuffix TrimSuffix].
    change (String "." Extension) with ".celo"%string.
    unfold HasSuffix, TrimSuffix. rewrite Et, strip_suffix_append.
    destruct (String.eqb_spec (String.append name ".celo") ".celo") as [Heq|_].
    - exfalso. apply (f_equal String.length) in Heq. rewrite str_length_append in Heq.
      destruct name; [contradiction|cbn in Heq; lia].
    - reflexivity. }
  assert (HP : sink_Write (mkSink [] o1) P
               = (length P, None, mkSink P (option_map (fun r => r - length P) o1))).
  { apply sink_Write_fits. unfold o1. destruct o; cbn; [lia | exact I]. }
  set (fs2 := os_Remove (fs_commit (fs_commit fs1 name (mkSink [] o1)) name
                          (mkSink P (option_map (fun r => r - length P) o1))) t).
  exists d2, fs2.
  split; [|split; [|split]].
  - unfold DecryptFile, os_Open. rewrite Hf1t, HR, HD2. cbv zeta. rewrite Hdn.
    unfold file_Create, os_Stat. rewrite Hf1n, Hf1c. cbn [andb negb]. rewrite fs_room_commit. cbn [s_room]. rewrite Hf1r, HP.
    reflexivity.
  - unfold fs2. rewrite fs_get_remove, !fs_get_commit, String.eqb_refl.
    destruct (String.eqb_spec t name) as [|_]; [contradiction|reflexivity].
  - unfold fs2. rewrite fs_get_remove, String.eqb_refl, !fs_get_commit.
    destruct (String.eqb_spec name t) as [<-|_]; [contradiction|].
    rewrite Hf1t. reflexivity.
  - intros x Hx1 Hx2. unfold fs2, fs1.
    repeat (rewrite ?fs_get_remove, ?fs_get_commit).
    destruct (String.eqb_spec t x) as [->|_]; [contradiction|].
    destruct (String.eqb_spec name x) as [->|_]; [contradiction|].
    reflexivity.
Qed.

Lemma EncryptFile_DecryptFile_roundtrip_witness :
  exists e1 r1 ct,
    ("a"%string <> EmptyString /\
     fs_get (mkFS [("a"%string, File toy_P); ("b"%string, File [x01])] (Some 200) ["b"%string]) "a" = Some (File toy_P) /\
     fs_get (mkFS [("a"%string, File toy_P); ("b"%string, File [x01])] (Some 200) ["b"%string]) (String.append "a" ".celo") = None /\
     os_Create_fails (mkFS [("a"%string, File toy_P); ("b"%string, File [x01])] (Some 200) ["b"%string]) (String.append "a" ".celo") = false /\
     os_Create_fails (mkFS [("a"%string, File toy_P); ("b"%string, File [x01])] (Some 200) ["b"%string]) "a" = false /\
     match fs_room (mkFS [("a"%string, File toy_P); ("b"%string, File [x01])] (Some 200) ["b"%string]) with
     | None => True | Some r => 76 + length ct + length toy_P <= r end /\
     Encrypt Toy.seal Toy.idkey NewEncrypter toy_K toy_P (repeat x07 44) = Some (e1, r1, Ok ct)) /\
    exists fs1,
      EncryptFile Toy.seal Toy.idkey NewEncrypter toy_K "a" false true
        (mkFS [("a"%string, File toy_P); ("b"%string, File [x01])] (Some 200) ["b"%string]) (repeat x07 44)
        = Some (e1, fs1, r1, Ok (String.append "a" ".celo")) /\
      fs_get fs1 "a" = None /\
      exists d fs2,
        DecryptFile Toy.open Toy.idkey NewDecrypter toy_K (String.append "a" ".celo") false true fs1
          = Some (d, fs2, Ok "a"%string) /\
        fs_get fs2 "a" = Some (File toy_P) /\
        fs_get fs2 (String.append "a" ".celo") = None /\
        (forall x, x <> "a"%string -> x <> String.append "a" ".celo" ->
         fs_get fs2 x = fs_get (mkFS [("a"%string, File toy_P); ("b"%string, File [x01])] (Some 200) ["b"%string]) x).
Proof.
  do 3 eexists.
  assert (HE : Encrypt Toy.seal Toy.idkey NewEncrypter toy_K toy_P (repeat x07 44)
                 = Some (_, _, Ok _)) by reflexivity.
  assert (Hne : "a"%string <> EmptyString) by discriminate.
  assert (Hs : fs_get (mkFS [("a"%string, File toy_P); ("b"%string, File [x01])] (Some 200) ["b"%string]) "a" = Some (File toy_P)) by reflexivity.
  assert (Ht : fs_get (mkFS [("a"%string, File toy_P); ("b"%string, File [x01])] (Some 200) ["b"%string]) (String.append "a" ".celo") = None) by reflexivity.
  assert (Hc1 : os_Create_fails (mkFS [("a"%string, File toy_P); ("b"%string, File [x01])] (Some 200) ["b"%string]) (String.append "a" ".celo") = false) by reflexivity.
  assert (Hc2 : os_Create_fails (mkFS [("a"%string, File toy_P); ("b"%string, File [x01])] (Some 200) ["b"%string]) "a" = false) by reflexivity.
  assert (Hroom : match fs_room (mkFS [("a"%string, File toy_P); ("b"%string, File [x01])] (Some 200) ["b"%string]) with
                  | None => True
                  | Some r => 76 + length (match Encrypt Toy.seal Toy.idkey NewEncrypter toy_K toy_P (repeat x07 44) with Some (_, _, Ok c) => c | _ => [] end) + length toy_P <= r
                  end) by (vm_compute; lia).
  cbn iota beta in Hroom.
  split; [repeat split; assumption|].
  exact (EncryptFile_DecryptFile_roundtrip Toy.seal Toy.open Toy.idkey Toy_open_seal
           _ _ _ _ _ _ _ _ Hne Hs Ht Hc1 Hc2 Hroom HE).
Defined.
